(** * A shallow embedding of [cfd_euler_gpu.cpp]

    The program is an explicit Lax-Friedrichs solver for the 2D compressible
    Euler equations on a structured grid with one layer of ghost cells and a
    frozen circular obstacle.

    Every [double] computation of the source is written once, over an
    arithmetic signature [Arith], and read at two instances:
    - [float_arith]: IEEE 754 binary64 (the kernel's primitive floats), which
      is what a C++ [double] is;
    - [real_arith]: the real numbers, the exact arithmetic the scheme is
      derived in.
    Structural facts (which cell is written, in what order, from which cells)
    are proved for every instance.  Where a property depends on the
    arithmetic, the dependence is a named condition on the instance
    ([fixes_free_stream]), which is then discharged over the reals and in
    binary64; algebraic identities that rounding breaks are proved over the
    reals and evaluated in binary64 at concrete configurations.

    The [int] loop counters and flat offsets are natural numbers: they are
    never negative in the source and stay far below 2^31 for the grids the
    program is built with.  The OpenMP loops are read in their sequential
    order; on a grid with at least one interior row and column no iteration of
    any of them reads a location that another iteration of the same loop
    writes, so the sequential reading is the one every schedule computes (up
    to the summation order of the reduction).  The mapping of the vectors to
    a device by the [target] pragmas and the wall-clock timing are not
    modelled. *)

From Stdlib Require Import ZArith QArith Reals Lra Lia.
From Stdlib Require Import Floats.PrimFloat Floats.SpecFloat Floats.FloatAxioms.
From Stdlib Require Import Numbers.Cyclic.Int63.Uint63.
From stdpp Require Import base option list.

(** ** Arithmetic signature of [double] *)

Class Arith (T : Type) := {
  add : T -> T -> T;
  sub : T -> T -> T;
  mul : T -> T -> T;
  div : T -> T -> T;
  opp : T -> T;
  leb : T -> T -> bool;      (* a <= b *)
  ltb : T -> T -> bool;      (* a <  b *)
  eqb : T -> T -> bool;      (* a == b *)
  sqrt : T -> T;
  fabs : T -> T;
  lit : Q -> T;              (* a decimal or integer literal, and int -> double *)
  (* the one law of the comparisons that is used: a == b implies a <= b *)
  eqb_leb : forall a b, eqb a b = true -> leb a b = true
}.

Declare Scope num_scope.
Delimit Scope num_scope with num.
Infix "+" := add : num_scope.
Infix "-" := sub : num_scope.
Infix "*" := mul : num_scope.
Infix "/" := div : num_scope.
Notation "- x" := (opp x) : num_scope.
Infix "<=?" := leb : num_scope.
Infix "<?" := ltb : num_scope.
Infix "==?" := eqb (at level 70) : num_scope.
Arguments lit {T _} q%_Q.

#[export] Instance arith_inhabited `{Arith T} : Inhabited T := populate (lit 0).

(** [int] to [double] conversion of a non-negative counter. *)
Definition of_int `{Arith T} (n : nat) : T := lit (inject_Z (Z.of_nat n)).

(** [std::min(a, b)]: [(b < a) ? b : a]. *)
Definition fmin `{Arith T} (a b : T) : T := if (b <? a)%num then b else a.

(** *** binary64 *)

Definition float_of_Z (z : Z) : float :=
  match z with
  | Z0 => PrimFloat.zero
  | Zpos _ => PrimFloat.of_uint63 (Uint63.of_Z z)
  | Zneg p => PrimFloat.opp (PrimFloat.of_uint63 (Uint63.of_Z (Zpos p)))
  end.

(** The literal [n/d] is the double nearest to it: numerator and denominator
    are exact (below 2^53) and IEEE division rounds correctly. *)
Definition float_lit (q : Q) : float :=
  PrimFloat.div (float_of_Z (Qnum q)) (float_of_Z (Zpos (Qden q))).

Lemma float_eqb_leb (a b : float) :
  PrimFloat.eqb a b = true -> PrimFloat.leb a b = true.
Proof.
  rewrite FloatAxioms.eqb_spec, FloatAxioms.leb_spec.
  unfold SpecFloat.SFeqb, SpecFloat.SFleb.
  by destruct (SpecFloat.SFcompare _ _) as [[| |]|].
Qed.

#[export] Instance float_arith : Arith float := {|
  add := PrimFloat.add; sub := PrimFloat.sub; mul := PrimFloat.mul;
  div := PrimFloat.div; opp := PrimFloat.opp;
  leb := PrimFloat.leb; ltb := PrimFloat.ltb; eqb := PrimFloat.eqb;
  sqrt := PrimFloat.sqrt; fabs := PrimFloat.abs; lit := float_lit;
  eqb_leb := float_eqb_leb |}.

(** *** exact real arithmetic *)

Definition Rleb (x y : R) : bool := if Rle_dec x y then true else false.
Definition Rltb (x y : R) : bool := if Rlt_dec x y then true else false.
Definition Reqb (x y : R) : bool := if Req_dec_T x y then true else false.

Lemma Rleb_le (x y : R) : Rleb x y = true <-> (x <= y)%R.
Proof. unfold Rleb. by destruct (Rle_dec x y). Qed.

Lemma Reqb_eq (x y : R) : Reqb x y = true <-> x = y.
Proof. unfold Reqb. by destruct (Req_dec_T x y). Qed.

Lemma real_eqb_leb (a b : R) : Reqb a b = true -> Rleb a b = true.
Proof. rewrite Reqb_eq, Rleb_le. intros ->. apply Rle_refl. Qed.

#[export] Instance real_arith : Arith R := {|
  add := Rplus; sub := Rminus; mul := Rmult; div := Rdiv; opp := Ropp;
  leb := Rleb; ltb := Rltb; eqb := Reqb;
  sqrt := R_sqrt.sqrt; fabs := Rabs; lit := Q2R;
  eqb_leb := real_eqb_leb |}.

(** ** Global parameters and the thermodynamic and flux functions *)

Section Functions.
Context {T : Type} `{Arith T}.
Local Open Scope num_scope.

Definition gamma_val : T := lit 1.4.
Definition CFL : T := lit 0.5.

Definition pressure (rho rhou rhov E : T) : T :=
  let u := rhou / rho in
  let v := rhov / rho in
  let kinetic := lit 0.5 * rho * (u * u + v * v) in
  (gamma_val - lit 1.0) * (E - kinetic).

(** The four reference out-parameters of [fluxX] and [fluxY]. *)
Record Flux := mkFlux { frho : T; frhou : T; frhov : T; fE : T }.

Definition fluxX (rho rhou rhov E : T) : Flux :=
  let u := rhou / rho in
  let p := pressure rho rhou rhov E in
  {| frho := rhou;
     frhou := rhou * u + p;
     frhov := rhov * u;
     fE := (E + p) * u |}.

Definition fluxY (rho rhou rhov E : T) : Flux :=
  let v := rhov / rho in
  let p := pressure rho rhou rhov E in
  {| frho := rhov;
     frhou := rhou * v;
     frhov := rhov * v + p;
     fE := (E + p) * v |}.

(** *** The same three functions with every division checked

    A division whose divisor compares equal to zero has no defined
    quotient; the checked functions return [None] as soon as one is
    executed. *)

Definition div_chk (a b : T) : option T :=
  if b ==? lit 0 then None else Some (a / b).

Definition pressure_chk (rho rhou rhov E : T) : option T :=
  u ← div_chk rhou rho;
  v ← div_chk rhov rho;
  let kinetic := lit 0.5 * rho * (u * u + v * v) in
  Some ((gamma_val - lit 1.0) * (E - kinetic)).

Definition fluxX_chk (rho rhou rhov E : T) : option Flux :=
  u ← div_chk rhou rho;
  p ← pressure_chk rho rhou rhov E;
  Some {| frho := rhou;
          frhou := rhou * u + p;
          frhov := rhov * u;
          fE := (E + p) * u |}.

Definition fluxY_chk (rho rhou rhov E : T) : option Flux :=
  v ← div_chk rhov rho;
  p ← pressure_chk rho rhou rhov E;
  Some {| frho := rhov;
          frhou := rhou * v;
          frhov := rhov * v + p;
          fE := (E + p) * v |}.
End Functions.

Arguments Flux T : clear implicits.

(** ** Configuration: the constants of [main] *)

Record Config (T : Type) := mkConfig {
  Nx : nat;  Ny : nat;          (* interior cells in x and in y *)
  Lx : T;  Ly : T;              (* domain lengths *)
  cx : T;  cy : T;  radius : T; (* cylinder centre and radius *)
  rho0 : T;  u0 : T;  v0 : T;  p0 : T;   (* free stream *)
  nSteps : nat
}.
Arguments mkConfig {T}.
Arguments Nx {T}. Arguments Ny {T}. Arguments Lx {T}. Arguments Ly {T}.
Arguments cx {T}. Arguments cy {T}. Arguments radius {T}.
Arguments rho0 {T}. Arguments u0 {T}. Arguments v0 {T}. Arguments p0 {T}.
Arguments nSteps {T}.

(** ** Machine state: the vectors of [main] and the text written to [cout] *)

Record State (T : Type) := mkState {
  rho : list T;  rhou : list T;  rhov : list T;  E : list T;
  rho_new : list T;  rhou_new : list T;  rhov_new : list T;  E_new : list T;
  solid : list bool;
  out : list (nat * T)   (* "Step n completed, total kinetic energy: k" *)
}.
Arguments mkState {T}.
Arguments rho {T}. Arguments rhou {T}. Arguments rhov {T}. Arguments E {T}.
Arguments rho_new {T}. Arguments rhou_new {T}. Arguments rhov_new {T}.
Arguments E_new {T}. Arguments solid {T}. Arguments out {T}.

(** [for (int i = lo; i < lo + count; i++) body(i)] *)
Fixpoint for_loop {St : Type} (lo count : nat) (body : nat -> St -> St) (s : St) : St :=
  match count with
  | O => s
  | S count' => for_loop (S lo) count' body (body lo s)
  end.

Section Solver.
Context {T : Type} `{Arith T}.
Local Open Scope num_scope.

(** *** Assignments [a[k] = v] to each vector *)

Definition set_rho (k : nat) (v : T) (s : State T) : State T :=
  mkState (<[k:=v]> (rho s)) (rhou s) (rhov s) (E s)
          (rho_new s) (rhou_new s) (rhov_new s) (E_new s) (solid s) (out s).
Definition set_rhou (k : nat) (v : T) (s : State T) : State T :=
  mkState (rho s) (<[k:=v]> (rhou s)) (rhov s) (E s)
          (rho_new s) (rhou_new s) (rhov_new s) (E_new s) (solid s) (out s).
Definition set_rhov (k : nat) (v : T) (s : State T) : State T :=
  mkState (rho s) (rhou s) (<[k:=v]> (rhov s)) (E s)
          (rho_new s) (rhou_new s) (rhov_new s) (E_new s) (solid s) (out s).
Definition set_E (k : nat) (v : T) (s : State T) : State T :=
  mkState (rho s) (rhou s) (rhov s) (<[k:=v]> (E s))
          (rho_new s) (rhou_new s) (rhov_new s) (E_new s) (solid s) (out s).
Definition set_rho_new (k : nat) (v : T) (s : State T) : State T :=
  mkState (rho s) (rhou s) (rhov s) (E s)
          (<[k:=v]> (rho_new s)) (rhou_new s) (rhov_new s) (E_new s) (solid s) (out s).
Definition set_rhou_new (k : nat) (v : T) (s : State T) : State T :=
  mkState (rho s) (rhou s) (rhov s) (E s)
          (rho_new s) (<[k:=v]> (rhou_new s)) (rhov_new s) (E_new s) (solid s) (out s).
Definition set_rhov_new (k : nat) (v : T) (s : State T) : State T :=
  mkState (rho s) (rhou s) (rhov s) (E s)
          (rho_new s) (rhou_new s) (<[k:=v]> (rhov_new s)) (E_new s) (solid s) (out s).
Definition set_E_new (k : nat) (v : T) (s : State T) : State T :=
  mkState (rho s) (rhou s) (rhov s) (E s)
          (rho_new s) (rhou_new s) (rhov_new s) (<[k:=v]> (E_new s)) (solid s) (out s).
Definition set_solid (k : nat) (b : bool) (s : State T) : State T :=
  mkState (rho s) (rhou s) (rhov s) (E s)
          (rho_new s) (rhou_new s) (rhov_new s) (E_new s) (<[k:=b]> (solid s)) (out s).
Definition print (n : nat) (v : T) (s : State T) : State T :=
  mkState (rho s) (rhou s) (rhov s) (E s)
          (rho_new s) (rhou_new s) (rhov_new s) (E_new s) (solid s) (out s ++ [(n, v)]).

Variable c : Config T.

(** *** Derived constants *)

Definition dx : T := Lx c / of_int (Nx c).
Definition dy : T := Ly c / of_int (Ny c).
Definition total_size : nat := (Nx c + 2) * (Ny c + 2).
Definition E0 : T :=
  p0 c / (gamma_val - lit 1.0)
  + lit 0.5 * rho0 c * (u0 c * u0 c + v0 c * v0 c).
Definition c0 : T := sqrt (gamma_val * p0 c / rho0 c).
Definition dt : T := CFL * fmin dx dy / (fabs (u0 c) + c0) / lit 2.0.

(** Flat offset of cell (i, j): [i*(Ny+2)+j]. *)
Definition idx (i j : nat) : nat := (i * (Ny c + 2) + j)%nat.

(** *** Initialization (source lines 56-92) *)

Definition cell_x (i : nat) : T := (of_int i - lit 0.5) * dx.
Definition cell_y (j : nat) : T := (of_int j - lit 0.5) * dy.

(** The test of line 78. *)
Definition in_cylinder (i j : nat) : bool :=
  let x := cell_x i in
  let y := cell_y j in
  (x - cx c) * (x - cx c) + (y - cy c) * (y - cy c) <=? radius c * radius c.

Definition init_body (i j : nat) (s : State T) : State T :=
  if in_cylinder i j then
    let s := set_solid (idx i j) true s in
    let s := set_rho (idx i j) (rho0 c) s in
    let s := set_rhou (idx i j) (lit 0.0) s in
    let s := set_rhov (idx i j) (lit 0.0) s in
    set_E (idx i j) (p0 c / (gamma_val - lit 1.0)) s
  else
    let s := set_solid (idx i j) false s in
    let s := set_rho (idx i j) (rho0 c) s in
    let s := set_rhou (idx i j) (rho0 c * u0 c) s in
    let s := set_rhov (idx i j) (rho0 c * v0 c) s in
    set_E (idx i j) E0 s.

(** The vectors as constructed on lines 56-58: value-initialized. *)
Definition alloc : State T :=
  let z := replicate total_size (lit 0) in
  mkState z z z z z z z z (replicate total_size false) [].

Definition initialize : State T :=
  for_loop 0 (Nx c + 2) (fun i =>
    for_loop 0 (Ny c + 2) (fun j => init_body i j)) alloc.

(** *** Boundary conditions (source lines 107-133) *)

Definition bc_left_right_body (j : nat) (s : State T) : State T :=
  (* Left boundary (inflow) *)
  let s := set_rho (idx 0 j) (rho0 c) s in
  let s := set_rhou (idx 0 j) (rho0 c * u0 c) s in
  let s := set_rhov (idx 0 j) (rho0 c * v0 c) s in
  let s := set_E (idx 0 j) E0 s in
  (* Right boundary (outflow) *)
  let s := set_rho (idx (Nx c + 1) j) (rho s !!! idx (Nx c) j) s in
  let s := set_rhou (idx (Nx c + 1) j) (rhou s !!! idx (Nx c) j) s in
  let s := set_rhov (idx (Nx c + 1) j) (rhov s !!! idx (Nx c) j) s in
  set_E (idx (Nx c + 1) j) (E s !!! idx (Nx c) j) s.

Definition bc_left_right (s : State T) : State T :=
  for_loop 0 (Ny c + 2) bc_left_right_body s.

Definition bc_bottom_top_body (i : nat) (s : State T) : State T :=
  (* Bottom boundary (reflective) *)
  let s := set_rho (idx i 0) (rho s !!! idx i 1) s in
  let s := set_rhou (idx i 0) (rhou s !!! idx i 1) s in
  let s := set_rhov (idx i 0) (- (rhov s !!! idx i 1)) s in
  let s := set_E (idx i 0) (E s !!! idx i 1) s in
  (* Top boundary (reflective) *)
  let s := set_rho (idx i (Ny c + 1)) (rho s !!! idx i (Ny c)) s in
  let s := set_rhou (idx i (Ny c + 1)) (rhou s !!! idx i (Ny c)) s in
  let s := set_rhov (idx i (Ny c + 1)) (- (rhov s !!! idx i (Ny c))) s in
  set_E (idx i (Ny c + 1)) (E s !!! idx i (Ny c)) s.

Definition bc_bottom_top (s : State T) : State T :=
  for_loop 0 (Nx c + 2) bc_bottom_top_body s.

(** The Boundary Applicator: the left/right loop, then the bottom/top loop. *)
Definition apply_boundary (s : State T) : State T :=
  bc_bottom_top (bc_left_right s).

(** *** Interior update (source lines 137-177) *)

Definition flux_at (flux : T -> T -> T -> T -> Flux T) (s : State T) (k : nat) : Flux T :=
  flux (rho s !!! k) (rhou s !!! k) (rhov s !!! k) (E s !!! k).

Definition update_body (i j : nat) (s : State T) : State T :=
  if (solid s !!! idx i j : bool) then
    let s := set_rho_new (idx i j) (rho s !!! idx i j) s in
    let s := set_rhou_new (idx i j) (rhou s !!! idx i j) s in
    let s := set_rhov_new (idx i j) (rhov s !!! idx i j) s in
    set_E_new (idx i j) (E s !!! idx i j) s
  else
    let fx1 := flux_at fluxX s (idx (i + 1) j) in
    let fx2 := flux_at fluxX s (idx (i - 1) j) in
    let fy1 := flux_at fluxY s (idx i (j + 1)) in
    let fy2 := flux_at fluxY s (idx i (j - 1)) in
    let dtdx := dt / (lit 2 * dx) in
    let dtdy := dt / (lit 2 * dy) in
    let s := set_rho_new (idx i j)
      (lit 0.25 * (rho s !!! idx (i + 1) j + rho s !!! idx (i - 1) j
                   + rho s !!! idx i (j + 1) + rho s !!! idx i (j - 1))
       - dtdx * (frho fx1 - frho fx2) - dtdy * (frho fy1 - frho fy2)) s in
    let s := set_rhou_new (idx i j)
      (lit 0.25 * (rhou s !!! idx (i + 1) j + rhou s !!! idx (i - 1) j
                   + rhou s !!! idx i (j + 1) + rhou s !!! idx i (j - 1))
       - dtdx * (frhou fx1 - frhou fx2) - dtdy * (frhou fy1 - frhou fy2)) s in
    let s := set_rhov_new (idx i j)
      (lit 0.25 * (rhov s !!! idx (i + 1) j + rhov s !!! idx (i - 1) j
                   + rhov s !!! idx i (j + 1) + rhov s !!! idx i (j - 1))
       - dtdx * (frhov fx1 - frhov fx2) - dtdy * (frhov fy1 - frhov fy2)) s in
    set_E_new (idx i j)
      (lit 0.25 * (E s !!! idx (i + 1) j + E s !!! idx (i - 1) j
                   + E s !!! idx i (j + 1) + E s !!! idx i (j - 1))
       - dtdx * (fE fx1 - fE fx2) - dtdy * (fE fy1 - fE fy2)) s.

Definition interior_update (s : State T) : State T :=
  for_loop 1 (Nx c) (fun i => for_loop 1 (Ny c) (fun j => update_body i j)) s.

(** *** Copy back (source lines 181-188) *)

Definition commit_body (i j : nat) (s : State T) : State T :=
  let s := set_rho (idx i j) (rho_new s !!! idx i j) s in
  let s := set_rhou (idx i j) (rhou_new s !!! idx i j) s in
  let s := set_rhov (idx i j) (rhov_new s !!! idx i j) s in
  set_E (idx i j) (E_new s !!! idx i j) s.

Definition commit (s : State T) : State T :=
  for_loop 1 (Nx c) (fun i => for_loop 1 (Ny c) (fun j => commit_body i j)) s.

(** *** Diagnostics (source lines 191-202) *)

Definition kinetic_body (s : State T) (i j : nat) (total_kinetic : T) : T :=
  let u := rhou s !!! idx i j / rho s !!! idx i j in
  let v := rhov s !!! idx i j / rho s !!! idx i j in
  total_kinetic + lit 0.5 * rho s !!! idx i j * (u * u + v * v).

Definition total_kinetic (s : State T) : T :=
  for_loop 1 (Nx c) (fun i => for_loop 1 (Ny c) (fun j => kinetic_body s i j))
           (lit 0.0).

Definition diagnostics (n : nat) (s : State T) : State T :=
  if (n mod 50 =? 0)%nat then print n (total_kinetic s) s else s.

(** *** One iteration of the time loop, and the loop *)

Definition time_step (n : nat) (s : State T) : State T :=
  diagnostics n (commit (interior_update (apply_boundary s))).

Definition run (n : nat) (s : State T) : State T := for_loop 0 n time_step s.

Definition main : State T := run (nSteps c) initialize.
End Solver.

Arguments idx {T} c i%_nat j%_nat : simpl never.
Arguments total_size {T} c : simpl never.

(** ** Vocabulary of the statements *)

Definition in_range (li ni lj nj i j : nat) : Prop :=
  (li <= i < li + ni)%nat /\ (lj <= j < lj + nj)%nat.

Section Cells.
Context {T : Type} `{Arith T}.
Variable c : Config T.
Local Open Scope num_scope.

(** Every vector has [total_size] elements. *)
Definition lengths (s : State T) : list nat :=
  [ length (rho s); length (rhou s); length (rhov s); length (E s);
    length (rho_new s); length (rhou_new s); length (rhov_new s);
    length (E_new s); length (solid s) ].

Definition sized (s : State T) : Prop :=
  lengths s = replicate 9 (total_size c).

(** The conservative state of one cell, in the current and in the next
    buffer. *)
Record Cell := mkCell { c_rho : T; c_rhou : T; c_rhov : T; c_E : T }.

Definition cur (s : State T) (k : nat) : Cell :=
  mkCell (rho s !!! k) (rhou s !!! k) (rhov s !!! k) (E s !!! k).
Definition nxt (s : State T) (k : nat) : Cell :=
  mkCell (rho_new s !!! k) (rhou_new s !!! k) (rhov_new s !!! k) (E_new s !!! k).

Definition free_stream : Cell :=
  mkCell (rho0 c) (rho0 c * u0 c)%num (rho0 c * v0 c)%num (E0 c).
Definition at_rest : Cell :=
  mkCell (rho0 c) (lit 0.0) (lit 0.0) (p0 c / (gamma_val - lit 1.0))%num.
Definition mirror (q : Cell) : Cell :=
  mkCell (c_rho q) (c_rhou q) (- c_rhov q)%num (c_E q).

(** Two states with the same current buffers and the same mask. *)
Definition same_cur (s t : State T) : Prop :=
  rho s = rho t /\ rhou s = rhou t /\ rhov s = rhov t /\ E s = E t
  /\ solid s = solid t.
Definition same_nxt (s t : State T) : Prop :=
  rho_new s = rho_new t /\ rhou_new s = rhou_new t
  /\ rhov_new s = rhov_new t /\ E_new s = E_new t.
End Cells.

Arguments Cell T : clear implicits.
Arguments mkCell {T}.
Arguments c_rho {T}. Arguments c_rhou {T}. Arguments c_rhov {T}. Arguments c_E {T}.

Section Vocabulary.
Context {T : Type} `{Arith T}.
Variable c : Config T.
Local Open Scope num_scope.

(** Cells of the grid, ghosts included, and interior cells. *)
Definition valid (i j : nat) : Prop := (i <= Nx c + 1)%nat /\ (j <= Ny c + 1)%nat.
Definition interior (i j : nat) : Prop :=
  (1 <= i <= Nx c)%nat /\ (1 <= j <= Ny c)%nat.

(** *** The Lax-Friedrichs value, as the scheme is written down

    For a conserved quantity stored in [q], with x-flux component [Fx] and
    y-flux component [Fy]: a quarter of the sum over the east, west, north
    and south neighbours, minus dt/(2dx) times the x-flux difference, minus
    dt/(2dy) times the y-flux difference. *)
Definition lf_value (s : State T) (q : list T) (Fx Fy : Flux T -> T) (i j : nat) : T :=
  lit 0.25 * (q !!! idx c (i + 1) j + q !!! idx c (i - 1) j
              + q !!! idx c i (j + 1) + q !!! idx c i (j - 1))
  - dt c / (lit 2 * dx c)
    * (Fx (flux_at fluxX s (idx c (i + 1) j)) - Fx (flux_at fluxX s (idx c (i - 1) j)))
  - dt c / (lit 2 * dy c)
    * (Fy (flux_at fluxY s (idx c i (j + 1))) - Fy (flux_at fluxY s (idx c i (j - 1)))).

Definition lax_friedrichs (s : State T) (i j : nat) : Cell T :=
  mkCell (lf_value s (rho s) frho frho i j)
         (lf_value s (rhou s) frhou frhou i j)
         (lf_value s (rhov s) frhov frhov i j)
         (lf_value s (E s) fE fE i j).

(** What the interior update stores for cell (i, j). *)
Definition update_value (s : State T) (i j : nat) : Cell T :=
  if (solid s !!! idx c i j : bool) then cur s (idx c i j) else lax_friedrichs s i j.

Definition same_nxt_mask (s t : State T) : Prop :=
  same_nxt s t /\ solid s = solid t.

Definition init_value (i j : nat) : bool * Cell T :=
  if in_cylinder c i j then (true, at_rest c) else (false, free_stream c).

Definition mask_cur (s : State T) (k : nat) : bool * Cell T :=
  (solid s !!! k, cur s k).

(** The Boundary Applicator, cell by cell: the value the left/right loop
    leaves in a cell, then the value the bottom/top loop leaves. *)
Definition inflow_outflow (s : State T) (i j : nat) : Cell T :=
  if decide (i = 0%nat) then free_stream c
  else if decide (i = (Nx c + 1)%nat) then cur s (idx c (Nx c) j)
  else cur s (idx c i j).

Definition boundary_value (s : State T) (i j : nat) : Cell T :=
  if decide (j = 0%nat) then mirror (inflow_outflow s i 1)
  else if decide (j = (Ny c + 1)%nat) then mirror (inflow_outflow s i (Ny c))
  else inflow_outflow s i j.

(** The part of the state that only the output statement leaves alone. *)
Definition mask_out (s : State T) : list bool * list (nat * T) := (solid s, out s).

(** The interior cells in the order the loop nest visits them; no test of
    the mask: solid cells are in the list. *)
Definition interior_cells : list (nat * nat) :=
  i ← seq 1 (Nx c); j ← seq 1 (Ny c); [(i, j)].

(** 0.5*rho*(u^2+v^2) with u = rhou/rho and v = rhov/rho. *)
Definition cell_kinetic (s : State T) (p : nat * nat) : T :=
  let k := idx c p.1 p.2 in
  let u := rhou s !!! k / rho s !!! k in
  let v := rhov s !!! k / rho s !!! k in
  lit 0.5 * rho s !!! k * (u * u + v * v).

Definition kinetic_sum (s : State T) : T :=
  foldl (fun acc p => acc + cell_kinetic s p) (lit 0.0) interior_cells.

End Vocabulary.

(** *** The uniform free stream *)

Section Stream.
Context {T : Type} `{Arith T}.
Variable c : Config T.
Local Open Scope num_scope.

(** The Lax-Friedrichs value of a cell from the states [e], [w], [n], [s] of
    its east, west, north and south neighbours. *)
Definition lf_of (e w n s : Cell T) : Cell T :=
  let fx1 := fluxX (c_rho e) (c_rhou e) (c_rhov e) (c_E e) in
  let fx2 := fluxX (c_rho w) (c_rhou w) (c_rhov w) (c_E w) in
  let fy1 := fluxY (c_rho n) (c_rhou n) (c_rhov n) (c_E n) in
  let fy2 := fluxY (c_rho s) (c_rhou s) (c_rhov s) (c_E s) in
  let dtdx := dt c / (lit 2 * dx c) in
  let dtdy := dt c / (lit 2 * dy c) in
  mkCell
    (lit 0.25 * (c_rho e + c_rho w + c_rho n + c_rho s)
     - dtdx * (frho fx1 - frho fx2) - dtdy * (frho fy1 - frho fy2))
    (lit 0.25 * (c_rhou e + c_rhou w + c_rhou n + c_rhou s)
     - dtdx * (frhou fx1 - frhou fx2) - dtdy * (frhou fy1 - frhou fy2))
    (lit 0.25 * (c_rhov e + c_rhov w + c_rhov n + c_rhov s)
     - dtdx * (frhov fx1 - frhov fx2) - dtdy * (frhov fy1 - frhov fy2))
    (lit 0.25 * (c_E e + c_E w + c_E n + c_E s)
     - dtdx * (fE fx1 - fE fx2) - dtdy * (fE fy1 - fE fy2)).

(** The state of a cell next to a wall row of a uniform free stream: the
    free stream itself, or its mirror image in a ghost row. *)
Definition stream_or_mirror (q : Cell T) : Prop :=
  q = free_stream c \/ q = mirror (free_stream c).

(** The arithmetic of the configuration returns the free stream for a cell
    whose east and west neighbours hold the free stream and whose north and
    south neighbours hold the free stream or its mirror image: in density
    and x-momentum, and in all four quantities. *)
Definition fixes_density_momentum : Prop :=
  forall n s, stream_or_mirror n -> stream_or_mirror s ->
    c_rho (lf_of (free_stream c) (free_stream c) n s) = rho0 c
    /\ c_rhou (lf_of (free_stream c) (free_stream c) n s) = rho0 c * u0 c.

Definition fixes_free_stream : Prop :=
  forall n s, stream_or_mirror n -> stream_or_mirror s ->
    lf_of (free_stream c) (free_stream c) n s = free_stream c.

(** No cell of the grid passes the obstacle test. *)
Definition no_obstacle : Prop :=
  forall i j, valid c i j -> in_cylinder c i j = false.

(** A state with no solid cell whose interior cells hold the free stream;
    its ghost cells may hold anything. *)
Definition streaming (s : State T) : Prop :=
  sized c s
  /\ (forall i j, valid c i j -> solid s !!! idx c i j = false)
  /\ (forall i j, interior c i j -> cur s (idx c i j) = free_stream c).
End Stream.

(** ** Concrete configurations *)

(** The constants of the source, in binary64. *)
Definition source_config : Config float :=
  mkConfig 200 100 (lit 2.0) (lit 1.0) (lit 0.5) (lit 0.5) (lit 0.1)
           (lit 1.0) (lit 1.0) (lit 0.0) (lit 1.0) 2000.

(** The end-to-end scenario: a 4 by 4 grid on the unit square, no obstacle
    (radius 0), free stream rho0 = 1, u0 = 1, v0 = 0, p0 = 1. *)
Definition scenario {T : Type} `{Arith T} : Config T :=
  mkConfig 4 4 (lit 1.0) (lit 1.0) (lit 0.5) (lit 0.5) (lit 0)
           (lit 1.0) (lit 1.0) (lit 0.0) (lit 1.0) 1.

(** A 2 by 2 grid whose free stream has a vertical component, v0 = 1. *)
Definition crossflow : Config float :=
  mkConfig 2 2 (lit 1.0) (lit 1.0) (lit 0.5) (lit 0.5) (lit 0)
           (lit 1.0) (lit 1.0) (lit 1.0) (lit 1.0) 1.

(** A 4 by 4 grid with a cylinder of radius 0.25 centred at (0.375, 0.375):
    the centres of cells (1,2), (3,2), (2,1) and (2,3) lie exactly on the
    circle, the centre of cell (2,2) is the centre of the circle. *)
Definition cylinder : Config float :=
  mkConfig 4 4 (lit 1.0) (lit 1.0) (lit 0.375) (lit 0.375) (lit 0.25)
           (lit 1.0) (lit 1.0) (lit 0.0) (lit 1.0) 1.


(** The grid of the scenario with a gas at rest and without pressure:
    rho0 = 1, u0 = 0, v0 = 0, p0 = 0. *)
Definition becalmed : Config float :=
  mkConfig 4 4 (lit 1.0) (lit 1.0) (lit 0.5) (lit 0.5) (lit 0)
           (lit 1.0) (lit 0.0) (lit 0.0) (lit 0.0) 1.

(** A free stream of density 3 in binary64. *)
Definition dense : Config float :=
  mkConfig 4 4 (lit 1.0) (lit 1.0) (lit 0.5) (lit 0.5) (lit 0)
           (lit 3.0) (lit 1.0) (lit 0.0) (lit 1.0) 1.


(** ** Lemmas *)

Example float_lit_gamma : float_lit 1.4 = 0x1.6666666666666p+0%float.
Proof. vm_compute. reflexivity. Qed.

(** ** Loops *)

Section Loops.
Context {St : Type}.
Implicit Types (body : nat -> St -> St) (s : St).

Lemma for_loop_snoc body lo n s :
  for_loop lo (n + 1) body s = body (lo + n)%nat (for_loop lo n body s).
Proof.
  revert lo s. induction n as [|n IH]; intros lo s; simpl.
  - by rewrite Nat.add_0_r.
  - rewrite IH. f_equal. lia.
Qed.

(** Invariant rule: [P i] holds before iteration [i]. *)
Lemma for_loop_inv (P : nat -> St -> Prop) body lo n s :
  P lo s ->
  (forall i t, (lo <= i < lo + n)%nat -> P i t -> P (i + 1)%nat (body i t)) ->
  P (lo + n)%nat (for_loop lo n body s).
Proof.
  revert lo s. induction n as [|n IH]; intros lo s H0 Hstep; simpl.
  - by rewrite Nat.add_0_r.
  - replace (lo + S n)%nat with (S lo + n)%nat by lia.
    apply IH.
    + replace (S lo) with (lo + 1)%nat by lia. apply Hstep; [lia | done].
    + intros i t Hi. apply Hstep. lia.
Qed.

(** What no iteration changes is not changed by the loop. *)
Lemma for_loop_preserve {B : Type} (f : St -> B) body lo n s :
  (forall i t, f (body i t) = f t) ->
  f (for_loop lo n body s) = f s.
Proof.
  intros Hb. revert lo s. induction n as [|n IH]; intros lo s; simpl; [done|].
  by rewrite IH, Hb.
Qed.

(** Invariant rule for a loop nest in row-major order: [P i j] holds before
    the iteration (i, j); the end of a row is the start of the next. *)
Lemma for_loop2_inv (P : nat -> nat -> St -> Prop)
      (body : nat -> nat -> St -> St) li ni lj nj s :
  P li lj s ->
  (forall i j t, (li <= i < li + ni)%nat -> (lj <= j < lj + nj)%nat ->
                 P i j t -> P i (j + 1)%nat (body i j t)) ->
  (forall i t, (li <= i < li + ni)%nat -> P i (lj + nj)%nat t -> P (i + 1)%nat lj t) ->
  P (li + ni)%nat lj (for_loop li ni (fun i => for_loop lj nj (body i)) s).
Proof.
  intros H0 Hcell Hrow.
  apply (for_loop_inv (fun i t => P i lj t)); [done|].
  intros i t Hi Ht. apply Hrow; [done|].
  apply (for_loop_inv (fun j t => P i j t)); [done|].
  intros j t' Hj. by apply Hcell.
Qed.
End Loops.

(** ** The grid: offsets, sizes, cells *)

Section Grid.
Context {T : Type} `{Arith T}.
Variable c : Config T.

Lemma idx_inj i j i' j' :
  (j <= Ny c + 1)%nat -> (j' <= Ny c + 1)%nat ->
  idx c i j = idx c i' j' -> i = i' /\ j = j'.
Proof.
  unfold idx. intros Hj Hj' Heq.
  assert (i = i') as ->.
  { destruct (Nat.lt_trichotomy i i') as [Hlt|[Heq'|Hlt]]; [exfalso|done|exfalso].
    - assert ((i + 1) * (Ny c + 2) <= i' * (Ny c + 2))%nat
        by (apply Nat.mul_le_mono_r; lia). lia.
    - assert ((i' + 1) * (Ny c + 2) <= i * (Ny c + 2))%nat
        by (apply Nat.mul_le_mono_r; lia). lia. }
  split; [done | lia].
Qed.

Lemma idx_eq_iff i j i' j' :
  (j <= Ny c + 1)%nat -> (j' <= Ny c + 1)%nat ->
  idx c i j = idx c i' j' <-> i = i' /\ j = j'.
Proof.
  intros Hj Hj'. split; [by apply idx_inj|]. by intros [-> ->].
Qed.

Lemma idx_lt i j :
  (i <= Nx c + 1)%nat -> (j <= Ny c + 1)%nat -> (idx c i j < total_size c)%nat.
Proof.
  unfold idx, total_size. intros Hi Hj.
  assert ((i + 1) * (Ny c + 2) <= (Nx c + 2) * (Ny c + 2))%nat
    by (apply Nat.mul_le_mono_r; lia). lia.
Qed.

End Grid.

(** Run the assignments of a loop body on a state given by its fields.  The
    state is a constructor application, so that call-by-value evaluation
    projects each field as soon as it is assigned. *)
Ltac state_simpl :=
  cbv beta iota zeta delta
    [set_rho set_rhou set_rhov set_E set_rho_new set_rhou_new set_rhov_new
     set_E_new set_solid print
     rho rhou rhov E rho_new rhou_new rhov_new E_new solid out].

Ltac state_simpl_in H :=
  cbv beta iota zeta delta
    [set_rho set_rhou set_rhov set_E set_rho_new set_rhou_new set_rhov_new
     set_E_new set_solid print
     rho rhou rhov E rho_new rhou_new rhov_new E_new solid out] in H.

Ltac destruct_if :=
  match goal with |- context [if ?b then _ else _] => destruct b end.

Ltac sized_lengths H :=
  let H' := fresh in
  pose proof H as H'; unfold sized, lengths in H'; state_simpl_in H';
  simpl in H'; simplify_eq H'; intros.

(** ** Loop nests that write one cell per iteration

    The initialization, the interior update and the copy back have the same
    shape: iteration (i, j) writes the view [V] of cell (i, j) only, with a
    value [G] computed from a part of the state that no iteration changes
    (two states with the same such part are related by [R]). *)

Section CellLocal.
Context {St A : Type}.
Variables (Inv : St -> Prop) (R : St -> St -> Prop).
Variables (V G : St -> nat -> nat -> A) (body : nat -> nat -> St -> St).
Variables (li ni lj nj : nat) (valid : nat -> nat -> Prop).

Hypothesis R_refl : forall s, R s s.
Hypothesis R_trans : forall s t u, R s t -> R t u -> R s u.
Hypothesis G_frame : forall s t i j, R t s -> G t i j = G s i j.
Hypothesis body_inv : forall i j t, in_range li ni lj nj i j -> Inv t -> Inv (body i j t).
Hypothesis body_frame : forall i j t, in_range li ni lj nj i j -> Inv t -> R (body i j t) t.
Hypothesis body_write : forall i j t,
  in_range li ni lj nj i j -> Inv t -> V (body i j t) i j = G t i j.
Hypothesis body_other : forall i j i' j' t,
  in_range li ni lj nj i j -> valid i' j' -> ~ (i' = i /\ j' = j) -> Inv t ->
  V (body i j t) i' j' = V t i' j'.

(** Cells written before iteration (i, j). *)
Let written (i j i' j' : nat) : Prop :=
  (li <= i')%nat /\ (lj <= j' < lj + nj)%nat /\ (i' < i \/ (i' = i /\ j' < j))%nat.

Lemma cell_local_pass s :
  Inv s ->
  let s' := for_loop li ni (fun i => for_loop lj nj (body i)) s in
  Inv s' /\ R s' s
  /\ (forall i j, valid i j -> in_range li ni lj nj i j -> V s' i j = G s i j)
  /\ (forall i j, valid i j -> ~ in_range li ni lj nj i j -> V s' i j = V s i j).
Proof.
  intros HI s'.
  pose (P := fun i j t =>
    Inv t /\ R t s
    /\ (forall i' j', valid i' j' -> written i j i' j' -> V t i' j' = G s i' j')
    /\ (forall i' j', valid i' j' -> ~ written i j i' j' -> V t i' j' = V s i' j')).
  assert (P (li + ni)%nat lj s') as (HI' & HR & Hw & Ho).
  { apply for_loop2_inv.
    - split; [done|]. split; [done|]. split; [|done].
      intros i' j' _ Hw. unfold written in Hw. lia.
    - intros i j t Hi Hj (HIt & HRt & Hw & Ho).
      assert (in_range li ni lj nj i j) as Hin by done.
      split; [by apply body_inv|].
      split; [eapply R_trans; [by apply body_frame | done]|].
      split.
      + intros i' j' Hv Hw'.
        destruct (decide (i' = i /\ j' = j)) as [[-> ->]|Hne].
        * rewrite body_write by done. by apply G_frame.
        * rewrite body_other by done. apply Hw; [done|].
          unfold written in *. lia.
      + intros i' j' Hv Hw'.
        rewrite body_other; [apply Ho; [done|] | done | done | | done];
          unfold written in *; lia.
    - intros i t Hi (HIt & HRt & Hw & Ho).
      split; [done|]. split; [done|]. split.
      + intros i' j' Hv Hw'. apply Hw; [done|]. unfold written in *. lia.
      + intros i' j' Hv Hw'. apply Ho; [done|]. unfold written in *. lia. }
  split; [done|]. split; [done|]. split.
  - intros i j Hv Hin. apply Hw; [done|]. unfold written, in_range in *. lia.
  - intros i j Hv Hin. apply Ho; [done|]. unfold written, in_range in *. lia.
Qed.
End CellLocal.

(** ** What each pass computes *)

Section Passes.
Context {T : Type} `{Arith T}.
Variable c : Config T.
Local Open Scope num_scope.

Lemma interior_in_range i j : interior c i j <-> in_range 1 (Nx c) 1 (Ny c) i j.
Proof. unfold interior, in_range. lia. Qed.

Lemma interior_valid i j : interior c i j -> valid c i j.
Proof. unfold interior, valid. lia. Qed.

Lemma same_cur_refl (s : State T) : same_cur s s.
Proof. by repeat split. Qed.

Lemma same_cur_trans (s t u : State T) : same_cur s t -> same_cur t u -> same_cur s u.
Proof. unfold same_cur. intros (?&?&?&?&?) (?&?&?&?&?). repeat split; congruence. Qed.

Lemma update_value_frame (s t : State T) i j :
  same_cur t s -> update_value c t i j = update_value c s i j.
Proof.
  intros (Hr & Hu & Hv & He & Hs).
  unfold update_value, lax_friedrichs, lf_value, cur, flux_at.
  by rewrite Hr, Hu, Hv, He, Hs.
Qed.

Lemma update_body_sized i j (t : State T) :
  sized c t -> sized c (update_body c i j t).
Proof.
  unfold sized, lengths, update_body. intros Ht.
  destruct_if; destruct t; state_simpl; state_simpl_in Ht;
    by rewrite ?length_insert.
Qed.

Lemma update_body_same_cur i j (t : State T) : same_cur (update_body c i j t) t.
Proof.
  unfold update_body, same_cur.
  destruct_if; destruct t; state_simpl; by repeat split.
Qed.

Lemma update_body_write i j (t : State T) :
  valid c i j -> sized c t ->
  nxt (update_body c i j t) (idx c i j) = update_value c t i j.
Proof.
  intros [Hi Hj] Ht.
  pose proof (idx_lt c i j Hi Hj) as Hlt.
  unfold update_body, update_value, nxt, cur, lax_friedrichs, lf_value, flux_at.
  destruct_if; destruct t; sized_lengths Ht; state_simpl;
    f_equal; by rewrite list_lookup_total_insert_eq by congruence.
Qed.

Lemma update_body_other i j i' j' (t : State T) :
  valid c i j -> valid c i' j' -> ~ (i' = i /\ j' = j) ->
  nxt (update_body c i j t) (idx c i' j') = nxt t (idx c i' j').
Proof.
  intros [Hi Hj] [Hi' Hj'] Hne.
  assert (idx c i j <> idx c i' j') as Hk by (rewrite idx_eq_iff by done; lia).
  unfold update_body, nxt.
  destruct_if; destruct t; state_simpl;
    f_equal; by rewrite list_lookup_total_insert_ne.
Qed.

(** The interior update, cell by cell. *)
Lemma interior_update_spec (s : State T) :
  sized c s ->
  sized c (interior_update c s) /\ same_cur (interior_update c s) s
  /\ (forall i j, interior c i j ->
        nxt (interior_update c s) (idx c i j) = update_value c s i j).
Proof.
  intros Hs.
  destruct (cell_local_pass (sized c) same_cur
              (fun t i j => nxt t (idx c i j)) (update_value c) (update_body c)
              1 (Nx c) 1 (Ny c) (valid c)) with (s := s)
    as (H1 & H2 & H3 & _); try done.
  - apply same_cur_trans.
  - intros. by apply update_value_frame.
  - intros. by apply update_body_sized.
  - intros. apply update_body_same_cur.
  - intros i j t Hin%interior_in_range%interior_valid Ht.
    by apply update_body_write.
  - intros i j i' j' t Hin%interior_in_range%interior_valid Hv Hne Ht.
    by apply update_body_other.
  - split; [done|]. split; [done|].
    intros i j Hin. apply H3; [by apply interior_valid | by apply interior_in_range].
Qed.

(** *** Copy back *)

Lemma commit_body_sized i j (t : State T) :
  sized c t -> sized c (commit_body c i j t).
Proof.
  unfold sized, lengths, commit_body. intros Ht.
  destruct t; state_simpl; state_simpl_in Ht. by rewrite ?length_insert.
Qed.

Lemma commit_body_write i j (t : State T) :
  valid c i j -> sized c t ->
  cur (commit_body c i j t) (idx c i j) = nxt t (idx c i j).
Proof.
  intros [Hi Hj] Ht.
  pose proof (idx_lt c i j Hi Hj) as Hlt.
  unfold commit_body, nxt, cur. destruct t; sized_lengths Ht; state_simpl.
  f_equal; by rewrite list_lookup_total_insert_eq by congruence.
Qed.

Lemma commit_body_other i j i' j' (t : State T) :
  valid c i j -> valid c i' j' -> ~ (i' = i /\ j' = j) ->
  cur (commit_body c i j t) (idx c i' j') = cur t (idx c i' j').
Proof.
  intros [Hi Hj] [Hi' Hj'] Hne.
  assert (idx c i j <> idx c i' j') as Hk by (rewrite idx_eq_iff by done; lia).
  unfold commit_body, cur. destruct t; state_simpl.
  f_equal; by rewrite list_lookup_total_insert_ne.
Qed.

(** The copy back, cell by cell: interior cells take the next buffer,
    ghost cells are left alone. *)
Lemma commit_spec (s : State T) :
  sized c s ->
  sized c (commit c s) /\ same_nxt_mask (commit c s) s
  /\ (forall i j, interior c i j -> cur (commit c s) (idx c i j) = nxt s (idx c i j))
  /\ (forall i j, valid c i j -> ~ interior c i j ->
        cur (commit c s) (idx c i j) = cur s (idx c i j)).
Proof.
  intros Hs.
  destruct (cell_local_pass (sized c) same_nxt_mask
              (fun t i j => cur t (idx c i j)) (fun t i j => nxt t (idx c i j))
              (commit_body c) 1 (Nx c) 1 (Ny c) (valid c)) with (s := s)
    as (H1 & H2 & H3 & H4); try done.
  - intros s1 s2 s3 [(?&?&?&?) ?] [(?&?&?&?) ?].
    repeat split; congruence.
  - intros s1 s2 i j [(Hr & Hu & Hv & He) _]. unfold nxt.
    by rewrite Hr, Hu, Hv, He.
  - intros. by apply commit_body_sized.
  - intros i j t Hin%interior_in_range%interior_valid Ht.
    by apply commit_body_write.
  - intros i j i' j' t Hin%interior_in_range%interior_valid Hv Hne Ht.
    by apply commit_body_other.
  - split; [done|]. split; [done|]. split.
    + intros i j Hin. apply H3; [by apply interior_valid | by apply interior_in_range].
    + intros i j Hv Hin. apply H4; [done | by rewrite <- interior_in_range].
Qed.

(** *** Initialization *)

Lemma init_body_sized i j (t : State T) :
  sized c t -> sized c (init_body c i j t).
Proof.
  unfold sized, lengths, init_body. intros Ht.
  destruct_if; destruct t; state_simpl; state_simpl_in Ht;
    by rewrite ?length_insert.
Qed.

Lemma init_body_write i j (t : State T) :
  valid c i j -> sized c t ->
  mask_cur (init_body c i j t) (idx c i j) = init_value c i j.
Proof.
  intros [Hi Hj] Ht.
  pose proof (idx_lt c i j Hi Hj) as Hlt.
  unfold init_body, init_value, mask_cur, cur, at_rest, free_stream.
  destruct_if; destruct t; sized_lengths Ht; state_simpl;
    (f_equal; [|f_equal]); by rewrite list_lookup_total_insert_eq by congruence.
Qed.

Lemma init_body_other i j i' j' (t : State T) :
  valid c i j -> valid c i' j' -> ~ (i' = i /\ j' = j) ->
  mask_cur (init_body c i j t) (idx c i' j') = mask_cur t (idx c i' j').
Proof.
  intros [Hi Hj] [Hi' Hj'] Hne.
  assert (idx c i j <> idx c i' j') as Hk by (rewrite idx_eq_iff by done; lia).
  unfold init_body, mask_cur, cur.
  destruct_if; destruct t; state_simpl;
    (f_equal; [|f_equal]); by rewrite list_lookup_total_insert_ne.
Qed.

Lemma alloc_sized : sized c (alloc c).
Proof. unfold sized, lengths, alloc. simpl. by rewrite !length_replicate. Qed.

(** Initialization, cell by cell, ghosts included. *)
Lemma initialize_spec :
  sized c (initialize c)
  /\ (forall i j, valid c i j -> mask_cur (initialize c) (idx c i j) = init_value c i j).
Proof.
  destruct (cell_local_pass (sized c) (fun _ _ => True)
              (fun t i j => mask_cur t (idx c i j)) (fun _ i j => init_value c i j)
              (init_body c) 0 (Nx c + 2) 0 (Ny c + 2) (valid c)) with (s := alloc c)
    as (H1 & _ & H3 & _); try done.
  - intros. by apply init_body_sized.
  - intros i j t [Hi Hj] Ht. apply init_body_write; [|done]. unfold valid. lia.
  - intros i j i' j' t [Hi Hj] Hv Hne Ht. apply init_body_other; try done.
    unfold valid. lia.
  - apply alloc_sized.
  - split; [done|]. intros i j [Hi Hj]. apply H3; [done|]. unfold in_range. lia.
Qed.

(** *** Boundary conditions *)

Ltac len_solve :=
  rewrite ?length_insert;
  match goal with
  | Hl : length ?l = total_size c |- (_ < length ?l)%nat =>
      rewrite Hl; apply idx_lt; lia
  end.
Ltac ne_solve := rewrite idx_eq_iff by lia; lia.
Ltac lookup_norm :=
  repeat first
    [ rewrite list_lookup_total_insert_eq by len_solve
    | rewrite list_lookup_total_insert_ne by ne_solve ].

Lemma bc_left_right_body_sized m (t : State T) :
  sized c t -> sized c (bc_left_right_body c m t).
Proof.
  unfold sized, lengths, bc_left_right_body. intros Ht.
  destruct t; state_simpl; state_simpl_in Ht. by rewrite ?length_insert.
Qed.

Lemma bc_left_right_body_cur m (t : State T) i j :
  sized c t -> (1 <= Nx c)%nat -> (m <= Ny c + 1)%nat -> valid c i j ->
  cur (bc_left_right_body c m t) (idx c i j) =
    if decide (j = m /\ i = 0%nat) then free_stream c
    else if decide (j = m /\ i = (Nx c + 1)%nat) then cur t (idx c (Nx c) m)
    else cur t (idx c i j).
Proof.
  intros Ht HNx Hm [Hi Hj].
  unfold bc_left_right_body, cur, free_stream.
  destruct t; sized_lengths Ht; state_simpl.
  destruct (decide (j = m /\ i = 0%nat)) as [[-> ->]|Hn1];
    [|destruct (decide (j = m /\ i = (Nx c + 1)%nat)) as [[-> ->]|Hn2]];
    f_equal; by lookup_norm.
Qed.

Lemma bc_left_right_spec (s : State T) :
  sized c s -> (1 <= Nx c)%nat ->
  sized c (bc_left_right c s)
  /\ (forall i j, valid c i j ->
        cur (bc_left_right c s) (idx c i j) =
          if decide (i = 0%nat) then free_stream c
          else if decide (i = (Nx c + 1)%nat) then cur s (idx c (Nx c) j)
          else cur s (idx c i j)).
Proof.
  intros Hs HNx.
  pose (P := fun (m : nat) (t : State T) =>
    sized c t
    /\ (forall i j, valid c i j ->
          cur t (idx c i j) =
            if decide (j < m)%nat then
              if decide (i = 0%nat) then free_stream c
              else if decide (i = (Nx c + 1)%nat) then cur s (idx c (Nx c) j)
              else cur s (idx c i j)
            else cur s (idx c i j))).
  assert (P (0 + (Ny c + 2))%nat (bc_left_right c s)) as [H1 H2].
  { unfold bc_left_right. apply (for_loop_inv P).
    - split; [done|]. intros i j _. by rewrite decide_False by lia.
    - intros m t Hm [Ht IH]. split; [by apply bc_left_right_body_sized|].
      intros i j Hv. rewrite bc_left_right_body_cur by (done || lia).
      rewrite !IH by (done || (unfold valid; lia)). destruct Hv.
      repeat case_decide; try done; try lia; destruct_and?; by subst. }
  split; [done|]. intros i j Hv. rewrite H2 by done. destruct Hv.
  by rewrite decide_True by lia.
Qed.

Lemma bc_bottom_top_body_sized m (t : State T) :
  sized c t -> sized c (bc_bottom_top_body c m t).
Proof.
  unfold sized, lengths, bc_bottom_top_body. intros Ht.
  destruct t; state_simpl; state_simpl_in Ht. by rewrite ?length_insert.
Qed.

Lemma bc_bottom_top_body_cur m (t : State T) i j :
  sized c t -> (1 <= Ny c)%nat -> (m <= Nx c + 1)%nat -> valid c i j ->
  cur (bc_bottom_top_body c m t) (idx c i j) =
    if decide (i = m /\ j = 0%nat) then mirror (cur t (idx c m 1))
    else if decide (i = m /\ j = (Ny c + 1)%nat) then mirror (cur t (idx c m (Ny c)))
    else cur t (idx c i j).
Proof.
  intros Ht HNy Hm [Hi Hj].
  unfold bc_bottom_top_body, cur, mirror.
  destruct t; sized_lengths Ht; state_simpl.
  destruct (decide (i = m /\ j = 0%nat)) as [[-> ->]|Hn1];
    [|destruct (decide (i = m /\ j = (Ny c + 1)%nat)) as [[-> ->]|Hn2]];
    f_equal; by lookup_norm.
Qed.

Lemma bc_bottom_top_spec (s : State T) :
  sized c s -> (1 <= Ny c)%nat ->
  sized c (bc_bottom_top c s)
  /\ (forall i j, valid c i j ->
        cur (bc_bottom_top c s) (idx c i j) =
          if decide (j = 0%nat) then mirror (cur s (idx c i 1))
          else if decide (j = (Ny c + 1)%nat) then mirror (cur s (idx c i (Ny c)))
          else cur s (idx c i j)).
Proof.
  intros Hs HNy.
  pose (P := fun (m : nat) (t : State T) =>
    sized c t
    /\ (forall i j, valid c i j ->
          cur t (idx c i j) =
            if decide (i < m)%nat then
              if decide (j = 0%nat) then mirror (cur s (idx c i 1))
              else if decide (j = (Ny c + 1)%nat) then mirror (cur s (idx c i (Ny c)))
              else cur s (idx c i j)
            else cur s (idx c i j))).
  assert (P (0 + (Nx c + 2))%nat (bc_bottom_top c s)) as [H1 H2].
  { unfold bc_bottom_top. apply (for_loop_inv P).
    - split; [done|]. intros i j _. by rewrite decide_False by lia.
    - intros m t Hm [Ht IH]. split; [by apply bc_bottom_top_body_sized|].
      intros i j Hv. rewrite bc_bottom_top_body_cur by (done || lia).
      rewrite !IH by (done || (unfold valid; lia)). destruct Hv.
      repeat case_decide; try done; try lia; destruct_and?; by subst. }
  split; [done|]. intros i j Hv. rewrite H2 by done. destruct Hv.
  by rewrite decide_True by lia.
Qed.

Lemma apply_boundary_spec (s : State T) i j :
  sized c s -> (1 <= Nx c)%nat -> (1 <= Ny c)%nat -> valid c i j ->
  cur (apply_boundary c s) (idx c i j) = boundary_value c s i j.
Proof.
  intros Hs HNx HNy [Hi Hj]. unfold apply_boundary, boundary_value, inflow_outflow.
  destruct (bc_left_right_spec s Hs HNx) as [Hs1 H1].
  destruct (bc_bottom_top_spec _ Hs1 HNy) as [_ H2].
  rewrite H2 by done. rewrite !H1 by (unfold valid; lia). done.
Qed.

(** *** Sizes, mask and output across the passes *)

Lemma for_loop_sized (body : nat -> State T -> State T) lo n s :
  (forall i t, sized c t -> sized c (body i t)) ->
  sized c s -> sized c (for_loop lo n body s).
Proof.
  intros Hb Hs. apply (for_loop_inv (fun _ t => sized c t)); [done|].
  intros i t _. apply Hb.
Qed.

Lemma apply_boundary_sized (s : State T) :
  sized c s -> sized c (apply_boundary c s).
Proof.
  intros Hs. unfold apply_boundary, bc_bottom_top, bc_left_right.
  apply for_loop_sized; [apply bc_bottom_top_body_sized|].
  apply for_loop_sized; [apply bc_left_right_body_sized|done].
Qed.

Lemma interior_update_sized (s : State T) :
  sized c s -> sized c (interior_update c s).
Proof.
  intros Hs. unfold interior_update.
  apply for_loop_sized; [|done]. intros i t Ht.
  apply for_loop_sized; [|done]. intros j. apply update_body_sized.
Qed.

Lemma commit_sized (s : State T) : sized c s -> sized c (commit c s).
Proof.
  intros Hs. unfold commit.
  apply for_loop_sized; [|done]. intros i t Ht.
  apply for_loop_sized; [|done]. intros j. apply commit_body_sized.
Qed.

Lemma diagnostics_sized n (s : State T) : sized c s -> sized c (diagnostics c n s).
Proof. unfold diagnostics. by destruct (n mod 50 =? 0)%nat. Qed.

Lemma time_step_sized n (s : State T) : sized c s -> sized c (time_step c n s).
Proof.
  intros Hs. unfold time_step.
  by apply diagnostics_sized, commit_sized, interior_update_sized,
    apply_boundary_sized.
Qed.

Lemma run_S n (s : State T) : run c (n + 1) s = time_step c n (run c n s).
Proof. unfold run. by rewrite for_loop_snoc. Qed.

Lemma run_sized n (s : State T) : sized c s -> sized c (run c n s).
Proof.
  intros Hs. unfold run. apply for_loop_sized; [|done].
  intros i t. apply time_step_sized.
Qed.

Lemma apply_boundary_mask_out (s : State T) :
  mask_out (apply_boundary c s) = mask_out s.
Proof.
  unfold apply_boundary, bc_bottom_top, bc_left_right.
  rewrite for_loop_preserve by done. by rewrite for_loop_preserve.
Qed.

Lemma interior_update_mask_out (s : State T) :
  mask_out (interior_update c s) = mask_out s.
Proof.
  unfold interior_update. apply for_loop_preserve. intros i t.
  apply for_loop_preserve. intros j t'. unfold update_body.
  by destruct (solid t' !!! idx c i j : bool).
Qed.

Lemma commit_mask_out (s : State T) : mask_out (commit c s) = mask_out s.
Proof.
  unfold commit. apply for_loop_preserve. intros i t.
  by apply for_loop_preserve.
Qed.

Lemma diagnostics_cur n (s : State T) k : cur (diagnostics c n s) k = cur s k.
Proof. unfold diagnostics. by destruct (n mod 50 =? 0)%nat. Qed.

Lemma diagnostics_solid n (s : State T) : solid (diagnostics c n s) = solid s.
Proof. unfold diagnostics. by destruct (n mod 50 =? 0)%nat. Qed.

Lemma time_step_solid n (s : State T) : solid (time_step c n s) = solid s.
Proof.
  unfold time_step. rewrite diagnostics_solid.
  pose proof (commit_mask_out (interior_update c (apply_boundary c s))) as H1.
  pose proof (interior_update_mask_out (apply_boundary c s)) as H2.
  pose proof (apply_boundary_mask_out s) as H3.
  unfold mask_out in *. congruence.
Qed.

Lemma run_solid n (s : State T) : solid (run c n s) = solid s.
Proof.
  unfold run. apply for_loop_preserve. intros i t. apply time_step_solid.
Qed.

(** The current buffer at the end of a step, cell by cell. *)
Lemma time_step_interior n (s : State T) i j :
  sized c s -> interior c i j ->
  cur (time_step c n s) (idx c i j) = update_value c (apply_boundary c s) i j.
Proof.
  intros Hs Hin. unfold time_step. rewrite diagnostics_cur.
  pose proof (apply_boundary_sized s Hs) as Hb.
  destruct (interior_update_spec _ Hb) as (Hu & _ & Hval).
  destruct (commit_spec _ Hu) as (_ & _ & Hc & _).
  rewrite Hc by done. by apply Hval.
Qed.

Lemma time_step_ghost n (s : State T) i j :
  sized c s -> valid c i j -> ~ interior c i j ->
  cur (time_step c n s) (idx c i j) = cur (apply_boundary c s) (idx c i j).
Proof.
  intros Hs Hv Hin. unfold time_step. rewrite diagnostics_cur.
  pose proof (apply_boundary_sized s Hs) as Hb.
  destruct (interior_update_spec _ Hb) as (Hu & Hsame & _).
  destruct (commit_spec _ Hu) as (_ & _ & _ & Hc).
  rewrite Hc by done. destruct Hsame as (Hr & Hru & Hrv & He & _).
  unfold cur. by rewrite Hr, Hru, Hrv, He.
Qed.

(** The Lax-Friedrichs value of a cell reads the four face neighbours only. *)
Lemma lax_friedrichs_ext (s t : State T) i j :
  cur t (idx c (i + 1) j) = cur s (idx c (i + 1) j) ->
  cur t (idx c (i - 1) j) = cur s (idx c (i - 1) j) ->
  cur t (idx c i (j + 1)) = cur s (idx c i (j + 1)) ->
  cur t (idx c i (j - 1)) = cur s (idx c i (j - 1)) ->
  lax_friedrichs c t i j = lax_friedrichs c s i j.
Proof.
  unfold cur, lax_friedrichs, lf_value, flux_at.
  intros [= -> -> -> ->] [= -> -> -> ->] [= -> -> -> ->] [= -> -> -> ->]. done.
Qed.

Lemma neighbours_differ i j :
  interior c i j ->
  idx c (i + 1) j <> idx c i j /\ idx c (i - 1) j <> idx c i j
  /\ idx c i (j + 1) <> idx c i j /\ idx c i (j - 1) <> idx c i j.
Proof.
  intros [Hi Hj]. repeat split; rewrite idx_eq_iff by lia; lia.
Qed.
End Passes.


(** ** The diagnostic as a sum over the interior cells *)

Section Kinetic.
Context {T : Type} `{Arith T}.
Variable c : Config T.
Local Open Scope num_scope.

Lemma for_loop_foldl {St : Type} (body : nat -> St -> St) lo n (s : St) :
  for_loop lo n body s = foldl (fun t i => body i t) s (seq lo n).
Proof. revert lo s. induction n as [|n IH]; intros lo s; simpl; [done|]. apply IH. Qed.

Lemma foldl_bind {A B C : Type} (f : A -> C -> A) (g : B -> list C) (l : list B) (a : A) :
  foldl f a (l ≫= g) = foldl (fun a x => foldl f a (g x)) a l.
Proof.
  revert a. induction l as [|x l IH]; intros a; [done|].
  rewrite bind_cons, foldl_app, IH. done.
Qed.

Lemma foldl_ext_eq {A B : Type} (f g : A -> B -> A) (l : list B) (a : A) :
  (forall a x, f a x = g a x) -> foldl f a l = foldl g a l.
Proof.
  intros Hfg. revert a. induction l as [|x l IH]; intros a; simpl; [done|].
  by rewrite Hfg, IH.
Qed.

Lemma total_kinetic_sum (s : State T) : total_kinetic c s = kinetic_sum c s.
Proof.
  unfold total_kinetic, kinetic_sum, interior_cells.
  rewrite for_loop_foldl, foldl_bind.
  apply foldl_ext_eq. intros a i.
  rewrite for_loop_foldl, foldl_bind.
  apply foldl_ext_eq. intros a' j. done.
Qed.

Lemma interior_cells_spec i j :
  (i, j) ∈ interior_cells c <-> interior c i j.
Proof.
  unfold interior_cells, interior. rewrite list_elem_of_bind. split.
  - intros (i' & Hj & Hi). rewrite list_elem_of_bind in Hj.
    destruct Hj as (j' & Hp & Hj). apply list_elem_of_singleton in Hp.
    simplify_eq. rewrite elem_of_seq in Hi, Hj. lia.
  - intros [Hi Hj]. exists i. split; [|rewrite elem_of_seq; lia].
    rewrite list_elem_of_bind. exists j. split; [|rewrite elem_of_seq; lia].
    by apply list_elem_of_singleton.
Qed.

(** The text written by the whole time loop. *)
Lemma diagnostics_out n (s : State T) :
  out (diagnostics c n s) =
    out s ++ (if (n mod 50 =? 0)%nat then [(n, kinetic_sum c s)] else []).
Proof.
  unfold diagnostics. rewrite <- total_kinetic_sum.
  destruct (n mod 50 =? 0)%nat; simpl; [done|]. by rewrite app_nil_r.
Qed.

Lemma time_step_out n (s : State T) :
  out (time_step c n s) =
    out s ++ (if (n mod 50 =? 0)%nat
              then [(n, kinetic_sum c (commit c (interior_update c (apply_boundary c s))))]
              else []).
Proof.
  unfold time_step. rewrite diagnostics_out. f_equal.
  pose proof (commit_mask_out c (interior_update c (apply_boundary c s))) as H1.
  pose proof (interior_update_mask_out c (apply_boundary c s)) as H2.
  pose proof (apply_boundary_mask_out c s) as H3.
  unfold mask_out in *. congruence.
Qed.

Lemma run_out_steps n (s : State T) :
  (out (run c n s)).*1 =
    (out s).*1 ++ filter (fun k => (k mod 50 = 0)%nat) (seq 0 n).
Proof.
  induction n as [|n IH].
  - simpl. by rewrite app_nil_r.
  - replace (S n) with (n + 1)%nat by lia.
    rewrite run_S, time_step_out, fmap_app, IH, seq_app, filter_app, <- app_assoc.
    f_equal. f_equal. cbn [seq Nat.add]. rewrite filter_cons, filter_nil.
    destruct (Nat.eqb_spec (n mod 50) 0) as [Heq|Hne].
    + by rewrite decide_True.
    + by rewrite decide_False.
Qed.
End Kinetic.

(** ** The claims *)

(** C1. One pass of the interior update stores, for a non-solid interior
    cell (i, j) and each conserved quantity q, a quarter of the sum of q over
    the east, west, north and south neighbours, minus dt/(2dx) times the
    difference of the x-flux of q between east and west, minus dt/(2dy) times
    the difference of the y-flux of q between north and south ([lf_value]).
    Only the current buffer is read, and never at (i, j) itself: a state [t]
    with the same mask that agrees with [s] on the current buffer everywhere
    except at (i, j), and has any next buffer at all, gets the same value. *)
Theorem C1_interior_update_lax_friedrichs
    {T : Type} `{Arith T} (c : Config T) (s : State T) (i j : nat) :
  sized c s -> interior c i j -> solid s !!! idx c i j = false ->
  rho_new (interior_update c s) !!! idx c i j = lf_value c s (rho s) frho frho i j
  /\ rhou_new (interior_update c s) !!! idx c i j = lf_value c s (rhou s) frhou frhou i j
  /\ rhov_new (interior_update c s) !!! idx c i j = lf_value c s (rhov s) frhov frhov i j
  /\ E_new (interior_update c s) !!! idx c i j = lf_value c s (E s) fE fE i j
  /\ (forall t : State T,
        sized c t -> solid t = solid s ->
        (forall k, k <> idx c i j -> cur t k = cur s k) ->
        nxt (interior_update c t) (idx c i j) = nxt (interior_update c s) (idx c i j)).
Proof.
  intros Hs Hin Hsolid.
  destruct (interior_update_spec c s Hs) as (_ & _ & Hval).
  pose proof (Hval i j Hin) as Hij.
  unfold update_value in Hij. rewrite Hsolid in Hij.
  unfold nxt, lax_friedrichs in Hij. injection Hij as H1 H2 H3 H4.
  do 4 (split; [done|]).
  intros t Ht Hmask Hagree.
  destruct (interior_update_spec c t Ht) as (_ & _ & Hval').
  rewrite Hval', Hval by done. unfold update_value.
  rewrite Hmask, Hsolid.
  destruct (neighbours_differ c i j Hin) as (He & Hw & Hn & Hso).
  apply lax_friedrichs_ext; by apply Hagree.
Qed.

Lemma C1_witness :
  let s := apply_boundary scenario (initialize (T := float) scenario) in
  rho_new (interior_update scenario s) !!! idx scenario 1 1
    = lf_value scenario s (rho s) frho frho 1 1
  /\ rhou_new (interior_update scenario s) !!! idx scenario 1 1
    = lf_value scenario s (rhou s) frhou frhou 1 1
  /\ rhov_new (interior_update scenario s) !!! idx scenario 1 1
    = lf_value scenario s (rhov s) frhov frhov 1 1
  /\ E_new (interior_update scenario s) !!! idx scenario 1 1
    = lf_value scenario s (E s) fE fE 1 1
  /\ (forall t : State float,
        sized scenario t -> solid t = solid s ->
        (forall k, k <> idx scenario 1 1 -> cur t k = cur s k) ->
        nxt (interior_update scenario t) (idx scenario 1 1)
          = nxt (interior_update scenario s) (idx scenario 1 1)).
Proof.
  intros s.
  apply (C1_interior_update_lax_friedrichs scenario s 1 1).
  - vm_compute. reflexivity.
  - unfold interior. simpl. lia.
  - vm_compute. reflexivity.
Defined.

(** C3. A solid interior cell keeps its conservative state from every step
    to the next: the interior update copies its current state into the next
    buffer, and the copy back returns it. *)
Theorem C3_solid_cells_frozen
    {T : Type} `{Arith T} (c : Config T) (s : State T) (n i j : nat) :
  sized c s -> interior c i j -> solid s !!! idx c i j = true ->
  let t := apply_boundary c (run c n s) in
  nxt (interior_update c t) (idx c i j) = cur (run c n s) (idx c i j)
  /\ cur (commit c (interior_update c t)) (idx c i j) = cur (run c n s) (idx c i j)
  /\ cur (run c (n + 1) s) (idx c i j) = cur (run c n s) (idx c i j).
Proof.
  intros Hs Hin Hsolid t.
  pose proof (run_sized c n s Hs) as Hr.
  pose proof (apply_boundary_sized c _ Hr) as Hb. fold t in Hb.
  assert (solid t !!! idx c i j = true) as Ht.
  { pose proof (apply_boundary_mask_out c (run c n s)) as Hm.
    injection Hm as Hm _. fold t in Hm. by rewrite Hm, run_solid. }
  assert (cur t (idx c i j) = cur (run c n s) (idx c i j)) as Hcur.
  { unfold t. destruct Hin as [Hi Hj].
    rewrite apply_boundary_spec by (done || lia || (unfold valid; lia)).
    unfold boundary_value, inflow_outflow.
    by rewrite !decide_False by lia. }
  destruct (interior_update_spec c t Hb) as (Hu & _ & Hval).
  destruct (commit_spec c _ Hu) as (_ & _ & Hc & _).
  assert (nxt (interior_update c t) (idx c i j) = cur (run c n s) (idx c i j)) as Hn.
  { rewrite Hval by done. unfold update_value. by rewrite Ht. }
  split; [done|]. split.
  - by rewrite Hc.
  - rewrite run_S, time_step_interior by done. fold t.
    unfold update_value. by rewrite Ht.
Qed.

Lemma C3_witness :
  let t := apply_boundary cylinder (run cylinder 0 (initialize cylinder)) in
  nxt (interior_update cylinder t) (idx cylinder 2 2)
    = cur (run cylinder 0 (initialize cylinder)) (idx cylinder 2 2)
  /\ cur (commit cylinder (interior_update cylinder t)) (idx cylinder 2 2)
    = cur (run cylinder 0 (initialize cylinder)) (idx cylinder 2 2)
  /\ cur (run cylinder (0 + 1) (initialize cylinder)) (idx cylinder 2 2)
    = cur (run cylinder 0 (initialize cylinder)) (idx cylinder 2 2).
Proof.
  apply (C3_solid_cells_frozen cylinder (initialize cylinder) 0 2 2).
  - vm_compute. reflexivity.
  - unfold interior. simpl. lia.
  - vm_compute. reflexivity.
Defined.

(** C5, as the code has it.  At every step, from the end of the Boundary
    Applicator to the end of the step, the left ghost cells (0, j) with
    1 <= j <= Ny hold the free-stream state; the two corner cells (0, 0) and
    (0, Ny+1) hold the free-stream state with the y-momentum negated, which
    the reflective loop wrote there afterwards. *)
Theorem C5_inflow_column
    {T : Type} `{Arith T} (c : Config T) (s : State T) (n j : nat) :
  sized c s -> (1 <= Nx c)%nat -> (1 <= Ny c)%nat -> (j <= Ny c + 1)%nat ->
  let t := run c n s in
  let held := if decide (j = 0 \/ j = Ny c + 1)%nat
              then mirror (free_stream c) else free_stream c in
  cur (apply_boundary c t) (idx c 0 j) = held
  /\ cur (interior_update c (apply_boundary c t)) (idx c 0 j) = held
  /\ cur (time_step c n t) (idx c 0 j) = held.
Proof.
  intros Hs HNx HNy Hj t held.
  pose proof (run_sized c n s Hs) as Ht. fold t in Ht.
  assert (cur (apply_boundary c t) (idx c 0 j) = held) as Hb.
  { rewrite apply_boundary_spec by (done || (unfold valid; lia)).
    unfold held, boundary_value, inflow_outflow.
    repeat case_decide; try done; lia. }
  split; [done|]. split.
  - destruct (interior_update_spec c _ (apply_boundary_sized c t Ht))
      as (_ & (Hr & Hru & Hrv & He & _) & _).
    unfold cur in *. by rewrite Hr, Hru, Hrv, He.
  - rewrite time_step_ghost; [done | done | unfold valid; lia | unfold interior; lia].
Qed.

Lemma C5_witness :
  let t := run crossflow 0 (initialize crossflow) in
  let held := if decide (0 = 0 \/ 0 = Ny crossflow + 1)%nat
              then mirror (free_stream crossflow) else free_stream crossflow in
  cur (apply_boundary crossflow t) (idx crossflow 0 0) = held
  /\ cur (interior_update crossflow (apply_boundary crossflow t)) (idx crossflow 0 0) = held
  /\ cur (time_step crossflow 0 t) (idx crossflow 0 0) = held.
Proof.
  apply (C5_inflow_column crossflow (initialize crossflow) 0 0).
  - vm_compute. reflexivity.
  - simpl. lia.
  - simpl. lia.
  - simpl. lia.
Defined.

(** C5, as stated, fails at a corner: with v0 = 1 the cell (0, 0) holds the
    y-momentum -1 after the Boundary Applicator of step 0, and the free
    stream has +1. *)
Lemma C5_counterexample :
  cur (apply_boundary crossflow (run crossflow 0 (initialize crossflow)))
      (idx crossflow 0 0)
  <> free_stream crossflow.
Proof.
  intros Heq.
  apply (f_equal (fun q => PrimFloat.ltb (c_rhov q) PrimFloat.zero)) in Heq.
  vm_compute in Heq. discriminate Heq.
Qed.

(** With the free stream of the source (v0 = 0) the y-momentum the
    reflective loop leaves in the corner (0, 0) is the negative zero. *)
Example corner_negative_zero :
  c_rhov (cur (apply_boundary scenario (initialize (T := float) scenario))
              (idx scenario 0 0))
  = PrimFloat.opp PrimFloat.zero
  /\ c_rhov (free_stream (T := float) scenario) = PrimFloat.zero.
Proof. vm_compute. split; reflexivity. Qed.

(** C6. After the Boundary Applicator, in every column the bottom ghost
    cell mirrors the cell of row 1 and the top ghost cell mirrors the cell of
    row Ny: rho, rhou and E are equal, rhov is negated. *)
Theorem C6_reflective_rows
    {T : Type} `{Arith T} (c : Config T) (s : State T) (i : nat) :
  sized c s -> (1 <= Ny c)%nat -> (i <= Nx c + 1)%nat ->
  let t := apply_boundary c s in
  cur t (idx c i 0) = mirror (cur t (idx c i 1))
  /\ cur t (idx c i (Ny c + 1)) = mirror (cur t (idx c i (Ny c))).
Proof.
  intros Hs HNy Hi t. unfold t, apply_boundary.
  assert (sized c (bc_left_right c s)) as Hlr.
  { unfold bc_left_right.
    apply for_loop_sized; [apply bc_left_right_body_sized | done]. }
  destruct (bc_bottom_top_spec c _ Hlr HNy) as [_ Hbt].
  rewrite !Hbt by (unfold valid; lia).
  split; repeat case_decide; try done; lia.
Qed.

Lemma C6_witness :
  let t := apply_boundary crossflow (initialize crossflow) in
  cur t (idx crossflow 1 0) = mirror (cur t (idx crossflow 1 1))
  /\ cur t (idx crossflow 1 (Ny crossflow + 1))
     = mirror (cur t (idx crossflow 1 (Ny crossflow))).
Proof.
  apply (C6_reflective_rows crossflow (initialize crossflow) 1).
  - vm_compute. reflexivity.
  - simpl. lia.
  - simpl. lia.
Defined.

(** C7. The Boundary Applicator is the left/right loop followed by the
    bottom/top loop.  The left/right loop leaves the inflow value in the two
    left corners and the outflow copy in the two right corners; the
    bottom/top loop then overwrites all four with the mirror image of the
    row-1 or row-Ny cell of their column. *)
Theorem C7_corner_cells
    {T : Type} `{Arith T} (c : Config T) (s : State T) :
  sized c s -> (1 <= Nx c)%nat -> (1 <= Ny c)%nat ->
  let lr := bc_left_right c s in
  let t := apply_boundary c s in
  t = bc_bottom_top c lr
  /\ (cur lr (idx c 0 0) = free_stream c
      /\ cur lr (idx c 0 (Ny c + 1)) = free_stream c
      /\ cur lr (idx c (Nx c + 1) 0) = cur s (idx c (Nx c) 0)
      /\ cur lr (idx c (Nx c + 1) (Ny c + 1)) = cur s (idx c (Nx c) (Ny c + 1)))
  /\ (cur t (idx c 0 0) = mirror (cur lr (idx c 0 1))
      /\ cur t (idx c 0 (Ny c + 1)) = mirror (cur lr (idx c 0 (Ny c)))
      /\ cur t (idx c (Nx c + 1) 0) = mirror (cur lr (idx c (Nx c + 1) 1))
      /\ cur t (idx c (Nx c + 1) (Ny c + 1)) = mirror (cur lr (idx c (Nx c + 1) (Ny c))))
  /\ (cur t (idx c 0 0) = mirror (free_stream c)
      /\ cur t (idx c 0 (Ny c + 1)) = mirror (free_stream c)
      /\ cur t (idx c (Nx c + 1) 0) = mirror (cur s (idx c (Nx c) 1))
      /\ cur t (idx c (Nx c + 1) (Ny c + 1)) = mirror (cur s (idx c (Nx c) (Ny c)))).
Proof.
  intros Hs HNx HNy lr t. unfold t, lr.
  destruct (bc_left_right_spec c s Hs HNx) as [_ Hlr].
  split; [done|].
  rewrite !apply_boundary_spec by (done || (unfold valid; lia)).
  rewrite !Hlr by (unfold valid; lia).
  unfold boundary_value, inflow_outflow.
  repeat split; repeat case_decide; try done; lia.
Qed.

Lemma C7_witness :
  let s := initialize crossflow in
  let lr := bc_left_right crossflow s in
  let t := apply_boundary crossflow s in
  t = bc_bottom_top crossflow lr
  /\ (cur lr (idx crossflow 0 0) = free_stream crossflow
      /\ cur lr (idx crossflow 0 (Ny crossflow + 1)) = free_stream crossflow
      /\ cur lr (idx crossflow (Nx crossflow + 1) 0) = cur s (idx crossflow (Nx crossflow) 0)
      /\ cur lr (idx crossflow (Nx crossflow + 1) (Ny crossflow + 1))
         = cur s (idx crossflow (Nx crossflow) (Ny crossflow + 1)))
  /\ (cur t (idx crossflow 0 0) = mirror (cur lr (idx crossflow 0 1))
      /\ cur t (idx crossflow 0 (Ny crossflow + 1))
         = mirror (cur lr (idx crossflow 0 (Ny crossflow)))
      /\ cur t (idx crossflow (Nx crossflow + 1) 0)
         = mirror (cur lr (idx crossflow (Nx crossflow + 1) 1))
      /\ cur t (idx crossflow (Nx crossflow + 1) (Ny crossflow + 1))
         = mirror (cur lr (idx crossflow (Nx crossflow + 1) (Ny crossflow))))
  /\ (cur t (idx crossflow 0 0) = mirror (free_stream crossflow)
      /\ cur t (idx crossflow 0 (Ny crossflow + 1)) = mirror (free_stream crossflow)
      /\ cur t (idx crossflow (Nx crossflow + 1) 0)
         = mirror (cur s (idx crossflow (Nx crossflow) 1))
      /\ cur t (idx crossflow (Nx crossflow + 1) (Ny crossflow + 1))
         = mirror (cur s (idx crossflow (Nx crossflow) (Ny crossflow)))).
Proof.
  apply (C7_corner_cells crossflow (initialize crossflow)).
  - vm_compute. reflexivity.
  - simpl. lia.
  - simpl. lia.
Defined.

(** The two loops do not commute: run in the other order, the corner (0, 0)
    of [crossflow] ends with the inflow value of the y-momentum, +1. *)
Example corner_order_matters :
  c_rhov (cur (apply_boundary crossflow (initialize crossflow)) (idx crossflow 0 0))
  = PrimFloat.opp PrimFloat.one
  /\ c_rhov (cur (bc_left_right crossflow (bc_bottom_top crossflow (initialize crossflow)))
                 (idx crossflow 0 0))
     = PrimFloat.one.
Proof. vm_compute. split; reflexivity. Qed.

(** C4. After initialization a cell (i, j) of the grid, ghosts included, is
    solid exactly when the test of the source holds at its centre
    x = (i-0.5)*dx, y = (j-0.5)*dy: (x-cx)^2 + (y-cy)^2 <= radius^2.  The
    comparison is inclusive: a cell for which the two sides compare equal is
    solid. *)
Theorem C4_obstacle_mask
    {T : Type} `{Arith T} (c : Config T) (i j : nat) :
  (i <= Nx c + 1)%nat -> (j <= Ny c + 1)%nat ->
  let x := ((of_int i - lit 0.5) * dx c)%num in
  let y := ((of_int j - lit 0.5) * dy c)%num in
  let d2 := ((x - cx c) * (x - cx c) + (y - cy c) * (y - cy c))%num in
  let r2 := (radius c * radius c)%num in
  (solid (initialize c) !!! idx c i j = true <-> (d2 <=? r2)%num = true)
  /\ ((d2 ==? r2)%num = true -> solid (initialize c) !!! idx c i j = true).
Proof.
  intros Hi Hj x y d2 r2.
  destruct (initialize_spec c) as [_ Hinit].
  pose proof (Hinit i j (conj Hi Hj)) as Hij.
  unfold mask_cur, init_value in Hij.
  assert (solid (initialize c) !!! idx c i j = in_cylinder c i j) as ->.
  { by destruct (in_cylinder c i j); injection Hij. }
  change (in_cylinder c i j) with (d2 <=? r2)%num.
  split; [done|]. apply eqb_leb.
Qed.

Lemma C4_witness :
  let c := cylinder in
  let x := ((of_int 3 - lit 0.5) * dx c)%num in
  let y := ((of_int 2 - lit 0.5) * dy c)%num in
  let d2 := ((x - cx c) * (x - cx c) + (y - cy c) * (y - cy c))%num in
  let r2 := (radius c * radius c)%num in
  (solid (initialize c) !!! idx c 3 2 = true <-> (d2 <=? r2)%num = true)
  /\ ((d2 ==? r2)%num = true -> solid (initialize c) !!! idx c 3 2 = true).
Proof.
  apply (C4_obstacle_mask cylinder 3 2).
  - simpl. lia.
  - simpl. lia.
Defined.

(** The cylinder of [cylinder] in binary64: the four cells whose centres lie
    exactly on the circle are solid, and so is the cell at its centre. *)
Example cylinder_mask :
  solid (initialize cylinder) =
    [ false; false; false; false; false; false;
      false; false; true;  false; false; false;
      false; true;  true;  true;  false; false;
      false; false; true;  false; false; false;
      false; false; false; false; false; false;
      false; false; false; false; false; false ].
Proof. vm_compute. reflexivity. Qed.

(** C8. The diagnostic is printed on exactly the steps whose index is
    divisible by 50, step 0 included; the value printed is the sum over all
    interior cells, in loop order and whatever the mask says, of
    0.5*rho*(u^2+v^2) with u = rhou/rho and v = rhov/rho, read from the state
    the copy back has left; no vector is changed. *)
Theorem C8_diagnostics {T : Type} `{Arith T} (c : Config T) :
  (forall n s, total_kinetic c s = kinetic_sum c s
     /\ out (diagnostics c n s)
        = out s ++ (if (n mod 50 =? 0)%nat then [(n, kinetic_sum c s)] else []))
  /\ (forall s, out (diagnostics c 0 s) = out s ++ [(0%nat, kinetic_sum c s)])
  /\ (forall n s,
        out (time_step c n s)
        = out s ++ (if (n mod 50 =? 0)%nat
                    then [(n, kinetic_sum c (commit c (interior_update c (apply_boundary c s))))]
                    else []))
  /\ (forall n s,
        (out (run c n s)).*1
        = (out s).*1 ++ filter (fun k => (k mod 50 = 0)%nat) (seq 0 n))
  /\ (forall i j, (i, j) ∈ interior_cells c <-> interior c i j)
  /\ (forall s t, rho s = rho t -> rhou s = rhou t -> rhov s = rhov t ->
        kinetic_sum c s = kinetic_sum c t)
  /\ (forall n s, same_cur (diagnostics c n s) s /\ same_nxt (diagnostics c n s) s).
Proof.
  split; [|split; [|split; [|split; [|split; [|split]]]]].
  - intros n s. split; [apply total_kinetic_sum | apply diagnostics_out].
  - intros s. apply (diagnostics_out c 0 s).
  - apply time_step_out.
  - apply run_out_steps.
  - apply interior_cells_spec.
  - intros s t Hr Hu Hv. unfold kinetic_sum. apply foldl_ext_eq.
    intros a p. unfold cell_kinetic. by rewrite Hr, Hu, Hv.
  - intros n s. unfold diagnostics.
    by destruct (n mod 50 =? 0)%nat.
Qed.

(** C10. [pressure], [fluxX] and [fluxY] divide by [rho], and by nothing
    else, on every call: with every division checked they fail exactly when
    [rho] compares equal to zero, and otherwise return what the unchecked
    functions return. *)
Theorem C10_divisions_by_rho {T : Type} `{Arith T} (rho rhou rhov E : T) :
  pressure_chk rho rhou rhov E
    = (if (rho ==? lit 0)%num then None else Some (pressure rho rhou rhov E))
  /\ fluxX_chk rho rhou rhov E
    = (if (rho ==? lit 0)%num then None else Some (fluxX rho rhou rhov E))
  /\ fluxY_chk rho rhou rhov E
    = (if (rho ==? lit 0)%num then None else Some (fluxY rho rhou rhov E)).
Proof.
  unfold fluxX_chk, fluxY_chk, pressure_chk, div_chk, fluxX, fluxY, pressure.
  by destruct (rho ==? lit 0)%num.
Qed.

(** ** Exact arithmetic *)

(** Unfold the operations of [real_arith] and its literals. *)
Ltac real_ops :=
  cbn [add sub mul div opp lit real_arith] in *; unfold Q2R in *; simpl in *.

Lemma pressure_roundtrip_real (c : Config R) :
  (0 < rho0 c)%R ->
  pressure (rho0 c) (rho0 c * u0 c)%num (rho0 c * v0 c)%num (E0 c) = p0 c.
Proof.
  intros Hrho. unfold pressure, E0, gamma_val. real_ops. field. lra.
Qed.

(** C9, as the code has it.  In exact arithmetic, for rho0 > 0 and any u0,
    v0, p0, the pressure of the free-stream state built from E0 is p0; in
    binary64 it is exactly p0 for the constants of the source. *)
Theorem C9_pressure_roundtrip :
  (forall c : Config R,
     (0 < rho0 c)%R ->
     pressure (rho0 c) (rho0 c * u0 c)%num (rho0 c * v0 c)%num (E0 c) = p0 c)
  /\ pressure (rho0 source_config) (rho0 source_config * u0 source_config)%num
              (rho0 source_config * v0 source_config)%num (E0 source_config)
     = p0 source_config.
Proof.
  split; [exact pressure_roundtrip_real|]. vm_compute. reflexivity.
Qed.

(** In binary64 the round trip is exact with the constants of the source. *)
Example pressure_roundtrip_source :
  pressure (rho0 source_config) (rho0 source_config * u0 source_config)%num
           (rho0 source_config * v0 source_config)%num (E0 source_config)
  = p0 source_config.
Proof. vm_compute. reflexivity. Qed.

(** C9, as stated, fails in binary64: with rho0 = 3, u0 = 1, v0 = 0, p0 = 1
    the pressure computed from the constructed E0 is 0.99999999999999978. *)
Lemma C9_counterexample :
  pressure (rho0 dense) (rho0 dense * u0 dense)%num
           (rho0 dense * v0 dense)%num (E0 dense)
  <> p0 dense.
Proof.
  intros Heq.
  apply (f_equal (fun p => PrimFloat.ltb p (p0 dense))) in Heq.
  vm_compute in Heq. discriminate Heq.
Qed.

(** In exact arithmetic the two conditions of C2 hold for every
    configuration with v0 = 0 and radius 0 in which no cell centre is the
    centre of the cylinder. *)
Section FreeStreamReal.
Variable c : Config R.

Lemma mirror_free_stream_real :
  v0 c = 0%R -> mirror (free_stream c) = free_stream c.
Proof.
  intros Hv. unfold mirror, free_stream. cbn [c_rho c_rhou c_rhov c_E].
  f_equal. real_ops. rewrite Hv. ring.
Qed.

Lemma no_obstacle_radius_zero :
  radius c = 0%R ->
  (forall i j, valid c i j -> ~ (cell_x c i = cx c /\ cell_y c j = cy c)) ->
  no_obstacle c.
Proof.
  intros Hr Hc i j Hv. specialize (Hc i j Hv).
  unfold in_cylinder. cbv zeta. rewrite Hr.
  revert Hc. generalize (cell_x c i) (cell_y c j). intros x y Hc.
  cbn [add sub mul leb real_arith].
  unfold Rleb. destruct (Rle_dec _ _) as [Hle|]; [|done].
  exfalso. apply Hc.
  pose proof (Rle_0_sqr (x - cx c)) as Hx.
  pose proof (Rle_0_sqr (y - cy c)) as Hy.
  fold (Rsqr (x - cx c)) (Rsqr (y - cy c)) in Hle.
  rewrite Rmult_0_l in Hle.
  split; apply Rminus_diag_uniq, Rsqr_0_uniq; lra.
Qed.

Lemma lf_uniform_arith (a K1 K2 F G : R) :
  (lit 0.25 * (a + a + a + a) - K1 * (F - F) - K2 * (G - G))%num = a.
Proof. real_ops. field. Qed.

Lemma fixes_free_stream_real : v0 c = 0%R -> fixes_free_stream c.
Proof.
  intros Hv n s Hn Hs. unfold stream_or_mirror in Hn, Hs.
  rewrite (mirror_free_stream_real Hv) in Hn, Hs.
  assert (n = free_stream c) as -> by (by destruct Hn).
  assert (s = free_stream c) as -> by (by destruct Hs).
  unfold lf_of, free_stream. cbn [c_rho c_rhou c_rhov c_E].
  f_equal; apply lf_uniform_arith.
Qed.

Lemma fixes_density_momentum_real : v0 c = 0%R -> fixes_density_momentum c.
Proof.
  intros Hv n s Hn Hs. by rewrite (fixes_free_stream_real Hv n s Hn Hs).
Qed.
End FreeStreamReal.

(** ** Further properties of the passes *)

Section MorePasses.
Context {T : Type} `{Arith T}.
Variable c : Config T.

Lemma initialize_solid i j :
  valid c i j -> solid (initialize c) !!! idx c i j = in_cylinder c i j.
Proof.
  intros Hv. destruct (initialize_spec c) as [_ Hinit].
  specialize (Hinit i j Hv). unfold mask_cur, init_value in Hinit.
  destruct (in_cylinder c i j); exact (f_equal fst Hinit).
Qed.

Lemma initialize_cur i j :
  valid c i j ->
  cur (initialize c) (idx c i j)
  = if in_cylinder c i j then at_rest c else free_stream c.
Proof.
  intros Hv. destruct (initialize_spec c) as [_ Hinit].
  specialize (Hinit i j Hv). unfold mask_cur, init_value in Hinit.
  destruct (in_cylinder c i j); exact (f_equal snd Hinit).
Qed.

Lemma initialize_out : out (initialize c) = [].
Proof.
  unfold initialize.
  rewrite (for_loop_preserve out); [done|]. intros i t.
  apply (for_loop_preserve out). intros j t'. unfold init_body.
  by destruct (in_cylinder c i j).
Qed.

(** The next buffer as a whole. *)
Lemma apply_boundary_nxt (s : State T) : same_nxt (apply_boundary c s) s.
Proof.
  pose (f := fun t : State T => (rho_new t, rhou_new t, rhov_new t, E_new t)).
  assert (f (apply_boundary c s) = f s) as Hf.
  { unfold apply_boundary, bc_bottom_top, bc_left_right.
    rewrite (for_loop_preserve f) by done. by rewrite (for_loop_preserve f). }
  unfold f in Hf. injection Hf as H1 H2 H3 H4. by repeat split.
Qed.

Lemma apply_boundary_interior (s : State T) i j :
  sized c s -> interior c i j ->
  cur (apply_boundary c s) (idx c i j) = cur s (idx c i j).
Proof.
  intros Hs [Hi Hj].
  rewrite apply_boundary_spec by (done || lia || (unfold valid; lia)).
  unfold boundary_value, inflow_outflow. by rewrite !decide_False by lia.
Qed.

Lemma apply_boundary_solid (s : State T) : solid (apply_boundary c s) = solid s.
Proof. pose proof (apply_boundary_mask_out c s) as Hm. by injection Hm. Qed.

Lemma apply_boundary_out (s : State T) : out (apply_boundary c s) = out s.
Proof. pose proof (apply_boundary_mask_out c s) as Hm. by injection Hm. Qed.

(** The interior update, ghost entries of the next buffer included. *)
Lemma interior_update_ghost (s : State T) i j :
  sized c s -> valid c i j -> ~ interior c i j ->
  nxt (interior_update c s) (idx c i j) = nxt s (idx c i j).
Proof.
  intros Hs Hv Hin.
  destruct (cell_local_pass (sized c) same_cur
              (fun t i j => nxt t (idx c i j)) (update_value c) (update_body c)
              1 (Nx c) 1 (Ny c) (valid c)) with (s := s)
    as (_ & _ & _ & H4); try done.
  - apply same_cur_trans.
  - intros. by apply update_value_frame.
  - intros. by apply update_body_sized.
  - intros. apply update_body_same_cur.
  - intros i' j' t Hin'%interior_in_range%interior_valid Ht.
    by apply update_body_write.
  - intros i' j' i'' j'' t Hin'%interior_in_range%interior_valid Hv' Hne Ht.
    by apply update_body_other.
  - apply H4; [done|]. by rewrite <- interior_in_range.
Qed.

(** A solid interior cell over a whole run. *)
Lemma solid_cell_run (s : State T) n i j :
  sized c s -> interior c i j -> solid s !!! idx c i j = true ->
  cur (run c n s) (idx c i j) = cur s (idx c i j).
Proof.
  intros Hs Hin Hsolid. induction n as [|n IH]; [done|].
  replace (S n) with (n + 1)%nat by lia.
  rewrite run_S, time_step_interior by (done || by apply run_sized).
  unfold update_value.
  rewrite apply_boundary_solid, run_solid, Hsolid.
  rewrite apply_boundary_interior by (done || by apply run_sized). done.
Qed.
End MorePasses.

(** X1. Initialization leaves every vector with [total_size] elements, has
    printed nothing, and every cell of the grid, ghosts included, holds the
    at-rest state (rho0, 0, 0, p0/(gamma-1)) if it is solid and the
    free-stream state otherwise. *)
Theorem X1_initialize_state {T : Type} `{Arith T} (c : Config T) (i j : nat) :
  (i <= Nx c + 1)%nat -> (j <= Ny c + 1)%nat ->
  sized c (initialize c)
  /\ out (initialize c) = []
  /\ cur (initialize c) (idx c i j)
     = if (solid (initialize c) !!! idx c i j : bool)
       then at_rest c else free_stream c.
Proof.
  intros Hi Hj. split; [apply initialize_spec|]. split; [apply initialize_out|].
  rewrite initialize_solid by done. by apply initialize_cur.
Qed.

Lemma X1_witness :
  sized cylinder (initialize cylinder)
  /\ out (initialize cylinder) = []
  /\ cur (initialize cylinder) (idx cylinder 2 2)
     = if (solid (initialize cylinder) !!! idx cylinder 2 2 : bool)
       then at_rest cylinder else free_stream cylinder.
Proof.
  apply (X1_initialize_state cylinder 2 2).
  - simpl. lia.
  - simpl. lia.
Defined.

(** X2. The flat offset [i*(Ny+2)+j] is a bijection between the cells of the
    grid, 0 <= i <= Nx+1 and 0 <= j <= Ny+1, and the offsets below
    [total_size]: it stays in range, two cells never share an offset, and
    every offset k is the one of cell (k / (Ny+2), k mod (Ny+2)). *)
Theorem X2_idx_bijection {T : Type} `{Arith T} (c : Config T) :
  (forall i j, valid c i j -> (idx c i j < total_size c)%nat)
  /\ (forall i j i' j', valid c i j -> valid c i' j' ->
        idx c i j = idx c i' j' -> i = i' /\ j = j')
  /\ (forall k, (k < total_size c)%nat ->
        valid c (k / (Ny c + 2)) (k mod (Ny c + 2))
        /\ idx c (k / (Ny c + 2)) (k mod (Ny c + 2)) = k).
Proof.
  split; [|split].
  - intros i j [Hi Hj]. by apply idx_lt.
  - intros i j i' j' [_ Hj] [_ Hj']. by apply idx_inj.
  - intros k Hk. unfold total_size in Hk.
    pose proof (Nat.mod_upper_bound k (Ny c + 2)) as Hm.
    pose proof (Nat.div_mod_eq k (Ny c + 2)) as Hd.
    assert (k / (Ny c + 2) < Nx c + 2)%nat as Hq.
    { apply Nat.Div0.div_lt_upper_bound. lia. }
    split; [unfold valid; lia|]. unfold idx. lia.
Qed.

(** X3. Every subscript the program uses is below [total_size]: the cell of
    the initialization loop, the three cells of an iteration of the
    left/right loop, the four of an iteration of the bottom/top loop, and the
    cell and its four neighbours in the update, copy-back and diagnostic
    loops. *)
Theorem X3_subscripts_in_bounds {T : Type} `{Arith T} (c : Config T) :
  (forall i j, (i < Nx c + 2)%nat -> (j < Ny c + 2)%nat ->
     (idx c i j < total_size c)%nat)
  /\ (forall j, (j < Ny c + 2)%nat ->
        (idx c 0 j < total_size c)%nat
        /\ (idx c (Nx c + 1) j < total_size c)%nat
        /\ (idx c (Nx c) j < total_size c)%nat)
  /\ (forall i, (i < Nx c + 2)%nat ->
        (idx c i 0 < total_size c)%nat
        /\ (idx c i 1 < total_size c)%nat
        /\ (idx c i (Ny c + 1) < total_size c)%nat
        /\ (idx c i (Ny c) < total_size c)%nat)
  /\ (forall i j, (1 <= i <= Nx c)%nat -> (1 <= j <= Ny c)%nat ->
        (idx c i j < total_size c)%nat
        /\ (idx c (i + 1) j < total_size c)%nat
        /\ (idx c (i - 1) j < total_size c)%nat
        /\ (idx c i (j + 1) < total_size c)%nat
        /\ (idx c i (j - 1) < total_size c)%nat).
Proof.
  split; [|split; [|split]].
  - intros i j Hi Hj. apply idx_lt; lia.
  - intros j Hj. repeat split; apply idx_lt; lia.
  - intros i Hi. repeat split; apply idx_lt; lia.
  - intros i j Hi Hj. repeat split; apply idx_lt; lia.
Qed.

(** X4. The Boundary Applicator writes ghost cells of the current buffer
    only: an interior cell, the next buffer, the mask and the output are as
    before, and so is the size of every vector. *)
Theorem X4_boundary_writes_ghosts_only
    {T : Type} `{Arith T} (c : Config T) (s : State T) (i j : nat) :
  sized c s -> interior c i j ->
  cur (apply_boundary c s) (idx c i j) = cur s (idx c i j)
  /\ same_nxt (apply_boundary c s) s
  /\ solid (apply_boundary c s) = solid s
  /\ out (apply_boundary c s) = out s
  /\ sized c (apply_boundary c s).
Proof.
  intros Hs Hin.
  split; [by apply apply_boundary_interior|].
  split; [apply apply_boundary_nxt|].
  split; [apply apply_boundary_solid|].
  split; [apply apply_boundary_out | by apply apply_boundary_sized].
Qed.

Lemma X4_witness :
  let s := initialize crossflow in
  cur (apply_boundary crossflow s) (idx crossflow 1 2) = cur s (idx crossflow 1 2)
  /\ same_nxt (apply_boundary crossflow s) s
  /\ solid (apply_boundary crossflow s) = solid s
  /\ out (apply_boundary crossflow s) = out s
  /\ sized crossflow (apply_boundary crossflow s).
Proof.
  apply (X4_boundary_writes_ghosts_only crossflow (initialize crossflow) 1 2).
  - vm_compute. reflexivity.
  - unfold interior. simpl. lia.
Defined.

(** X5. After the Boundary Applicator the right ghost cell (Nx+1, j) of
    every interior row j holds the state of the last interior cell (Nx, j) of
    that row, which the applicator has not changed: a zero-gradient
    outflow. *)
Theorem X5_outflow_column
    {T : Type} `{Arith T} (c : Config T) (s : State T) (j : nat) :
  sized c s -> (1 <= Nx c)%nat -> (1 <= j <= Ny c)%nat ->
  let t := apply_boundary c s in
  cur t (idx c (Nx c + 1) j) = cur s (idx c (Nx c) j)
  /\ cur t (idx c (Nx c + 1) j) = cur t (idx c (Nx c) j).
Proof.
  intros Hs HNx Hj t. unfold t.
  rewrite (apply_boundary_interior c s (Nx c) j) by (done || (unfold interior; lia)).
  rewrite apply_boundary_spec by (done || lia || (unfold valid; lia)).
  unfold boundary_value, inflow_outflow.
  split; repeat case_decide; try done; lia.
Qed.

Lemma X5_witness :
  let t := apply_boundary crossflow (initialize crossflow) in
  cur t (idx crossflow (Nx crossflow + 1) 1)
    = cur (initialize crossflow) (idx crossflow (Nx crossflow) 1)
  /\ cur t (idx crossflow (Nx crossflow + 1) 1)
     = cur t (idx crossflow (Nx crossflow) 1).
Proof.
  apply (X5_outflow_column crossflow (initialize crossflow) 1).
  - vm_compute. reflexivity.
  - simpl. lia.
  - simpl. lia.
Defined.

(** X6. Applying the Boundary Applicator twice gives, in every cell of the
    grid, what applying it once gives. *)
Theorem X6_boundary_idempotent
    {T : Type} `{Arith T} (c : Config T) (s : State T) (i j : nat) :
  sized c s -> (1 <= Nx c)%nat -> (1 <= Ny c)%nat -> valid c i j ->
  cur (apply_boundary c (apply_boundary c s)) (idx c i j)
  = cur (apply_boundary c s) (idx c i j).
Proof.
  intros Hs HNx HNy [Hi Hj].
  pose proof (apply_boundary_sized c s Hs) as Hs'.
  rewrite (apply_boundary_spec c (apply_boundary c s)) by done.
  unfold boundary_value, inflow_outflow.
  rewrite !(apply_boundary_spec c s) by (done || (unfold valid; lia)).
  unfold boundary_value, inflow_outflow.
  repeat case_decide; try done; lia.
Qed.

Lemma X6_witness :
  cur (apply_boundary crossflow (apply_boundary crossflow (initialize crossflow)))
      (idx crossflow 3 0)
  = cur (apply_boundary crossflow (initialize crossflow)) (idx crossflow 3 0).
Proof.
  apply (X6_boundary_idempotent crossflow (initialize crossflow) 3 0).
  - vm_compute. reflexivity.
  - simpl. lia.
  - simpl. lia.
  - unfold valid. simpl. lia.
Defined.

Section GhostLayer.
Context {T : Type} `{Arith T}.
Variable c : Config T.

(** The boundary values are computed from interior cells only. *)
Lemma apply_boundary_ext (s t : State T) i j :
  sized c s -> sized c t -> (1 <= Nx c)%nat -> (1 <= Ny c)%nat ->
  (forall i j, interior c i j -> cur s (idx c i j) = cur t (idx c i j)) ->
  valid c i j ->
  cur (apply_boundary c s) (idx c i j) = cur (apply_boundary c t) (idx c i j).
Proof.
  intros Hs Ht HNx HNy Hint [Hi Hj].
  rewrite !apply_boundary_spec by done.
  unfold boundary_value, inflow_outflow.
  repeat case_decide; try done; try lia;
    by rewrite Hint by (unfold interior; lia).
Qed.

Lemma time_step_ext (s t : State T) n m i j :
  sized c s -> sized c t -> (1 <= Nx c)%nat -> (1 <= Ny c)%nat ->
  solid s = solid t ->
  (forall i j, interior c i j -> cur s (idx c i j) = cur t (idx c i j)) ->
  valid c i j ->
  cur (time_step c n s) (idx c i j) = cur (time_step c m t) (idx c i j).
Proof.
  intros Hs Ht HNx HNy Hmask Hint Hv.
  destruct (decide (interior c i j)) as [Hin|Hout].
  - rewrite !time_step_interior by done. unfold update_value.
    rewrite !apply_boundary_solid, Hmask. destruct Hin as [Hi Hj].
    destruct (solid t !!! idx c i j : bool).
    + by apply apply_boundary_ext.
    + apply lax_friedrichs_ext; apply apply_boundary_ext; try done;
        unfold valid; lia.
  - rewrite !time_step_ghost by done. by apply apply_boundary_ext.
Qed.
End GhostLayer.

(** X7. The ghost layer carries nothing from one step to the next: two
    states with the same mask and the same interior cells have the same
    current buffer, in every cell of the grid, after the Boundary Applicator
    and at the end of a step, whatever their ghost cells, next buffers and
    step indices are. *)
Theorem X7_step_depends_on_interior
    {T : Type} `{Arith T} (c : Config T) (s t : State T) (n m i j : nat) :
  sized c s -> sized c t -> (1 <= Nx c)%nat -> (1 <= Ny c)%nat ->
  solid s = solid t ->
  (forall i j, interior c i j -> cur s (idx c i j) = cur t (idx c i j)) ->
  valid c i j ->
  cur (apply_boundary c s) (idx c i j) = cur (apply_boundary c t) (idx c i j)
  /\ cur (time_step c n s) (idx c i j) = cur (time_step c m t) (idx c i j).
Proof.
  intros Hs Ht HNx HNy Hmask Hint Hv.
  split; [by apply apply_boundary_ext | by apply time_step_ext].
Qed.

Lemma X7_witness :
  let s := initialize crossflow in
  let t := apply_boundary crossflow (initialize crossflow) in
  cur (apply_boundary crossflow s) (idx crossflow 0 0)
    = cur (apply_boundary crossflow t) (idx crossflow 0 0)
  /\ cur (time_step crossflow 0 s) (idx crossflow 0 0)
     = cur (time_step crossflow 7 t) (idx crossflow 0 0).
Proof.
  apply (X7_step_depends_on_interior crossflow
           (initialize crossflow)
           (apply_boundary crossflow (initialize crossflow)) 0 7 0 0).
  - vm_compute. reflexivity.
  - vm_compute. reflexivity.
  - simpl. lia.
  - simpl. lia.
  - vm_compute. reflexivity.
  - intros i j Hin. symmetry. apply apply_boundary_interior; [|exact Hin].
    vm_compute. reflexivity.
  - unfold valid. simpl. lia.
Defined.

(** X8. The interior update writes interior entries of the next buffer
    only: the current buffer, the mask and the output are as before, the
    ghost entries of the next buffer are as before, and every vector keeps
    its size. *)
Theorem X8_update_writes_next_interior_only
    {T : Type} `{Arith T} (c : Config T) (s : State T) :
  sized c s ->
  same_cur (interior_update c s) s
  /\ out (interior_update c s) = out s
  /\ sized c (interior_update c s)
  /\ (forall i j, valid c i j -> ~ interior c i j ->
        nxt (interior_update c s) (idx c i j) = nxt s (idx c i j)).
Proof.
  intros Hs. destruct (interior_update_spec c s Hs) as (Hsz & Hsame & _).
  split; [done|]. split.
  - pose proof (interior_update_mask_out c s) as Hm. by injection Hm.
  - split; [done|]. intros i j Hv Hin. by apply interior_update_ghost.
Qed.

Lemma X8_witness :
  let s := apply_boundary cylinder (initialize cylinder) in
  same_cur (interior_update cylinder s) s
  /\ out (interior_update cylinder s) = out s
  /\ sized cylinder (interior_update cylinder s)
  /\ (forall i j, valid cylinder i j -> ~ interior cylinder i j ->
        nxt (interior_update cylinder s) (idx cylinder i j) = nxt s (idx cylinder i j)).
Proof.
  apply (X8_update_writes_next_interior_only cylinder
           (apply_boundary cylinder (initialize cylinder))).
  vm_compute. reflexivity.
Defined.

(** X9. The copy back gives every interior cell of the current buffer the
    value the next buffer has for it and leaves every ghost cell of the
    current buffer, the whole next buffer, the mask and the output as they
    are. *)
Theorem X9_commit_copies_interior
    {T : Type} `{Arith T} (c : Config T) (s : State T) :
  sized c s ->
  (forall i j, interior c i j ->
     cur (commit c s) (idx c i j) = nxt s (idx c i j))
  /\ (forall i j, valid c i j -> ~ interior c i j ->
        cur (commit c s) (idx c i j) = cur s (idx c i j))
  /\ same_nxt (commit c s) s
  /\ solid (commit c s) = solid s
  /\ out (commit c s) = out s
  /\ sized c (commit c s).
Proof.
  intros Hs. destruct (commit_spec c s Hs) as (Hsz & [Hn Hm] & Hin & Hout).
  split; [done|]. split; [done|]. split; [done|]. split; [done|].
  split; [|done]. pose proof (commit_mask_out c s) as Ho. by injection Ho.
Qed.

Lemma X9_witness :
  let s := interior_update cylinder (apply_boundary cylinder (initialize cylinder)) in
  (forall i j, interior cylinder i j ->
     cur (commit cylinder s) (idx cylinder i j) = nxt s (idx cylinder i j))
  /\ (forall i j, valid cylinder i j -> ~ interior cylinder i j ->
        cur (commit cylinder s) (idx cylinder i j) = cur s (idx cylinder i j))
  /\ same_nxt (commit cylinder s) s
  /\ solid (commit cylinder s) = solid s
  /\ out (commit cylinder s) = out s
  /\ sized cylinder (commit cylinder s).
Proof.
  apply (X9_commit_copies_interior cylinder
           (interior_update cylinder (apply_boundary cylinder (initialize cylinder)))).
  vm_compute. reflexivity.
Defined.

(** X10. Over a run of any number of steps the mask is the one the run
    started with and every vector keeps its [total_size] elements; in
    particular this holds for the whole program, started from the
    initialization. *)
Theorem X10_run_keeps_mask_and_sizes
    {T : Type} `{Arith T} (c : Config T) (s : State T) (n : nat) :
  sized c s ->
  sized c (run c n s) /\ solid (run c n s) = solid s
  /\ sized c (main c) /\ solid (main c) = solid (initialize c).
Proof.
  intros Hs. split; [by apply run_sized|]. split; [apply run_solid|].
  unfold main. split; [|apply run_solid].
  apply run_sized, initialize_spec.
Qed.

Lemma X10_witness :
  sized cylinder (run cylinder 3 (initialize cylinder))
  /\ solid (run cylinder 3 (initialize cylinder)) = solid (initialize cylinder)
  /\ sized cylinder (main cylinder)
  /\ solid (main cylinder) = solid (initialize cylinder).
Proof.
  apply (X10_run_keeps_mask_and_sizes cylinder (initialize cylinder) 3).
  vm_compute. reflexivity.
Defined.

(** X11. The interior update never reads the four corner ghost cells: two
    states with the same mask whose current buffers agree in every cell of
    the grid that is not a corner get the same next-buffer value in every
    interior cell. *)
Theorem X11_update_ignores_corners
    {T : Type} `{Arith T} (c : Config T) (s t : State T) (i j : nat) :
  sized c s -> sized c t -> solid s = solid t ->
  (forall i j, valid c i j ->
     ~ ((i = 0 \/ i = Nx c + 1)%nat /\ (j = 0 \/ j = Ny c + 1)%nat) ->
     cur s (idx c i j) = cur t (idx c i j)) ->
  interior c i j ->
  nxt (interior_update c s) (idx c i j) = nxt (interior_update c t) (idx c i j).
Proof.
  intros Hs Ht Hmask Hagree Hin.
  destruct (interior_update_spec c s Hs) as (_ & _ & Hvs).
  destruct (interior_update_spec c t Ht) as (_ & _ & Hvt).
  rewrite Hvs, Hvt by done. unfold update_value. rewrite Hmask.
  destruct Hin as [Hi Hj].
  destruct (solid t !!! idx c i j : bool).
  - apply Hagree; [unfold valid|]; lia.
  - apply lax_friedrichs_ext; apply Hagree; (unfold valid; lia) || lia.
Qed.

Lemma X11_witness :
  let s := apply_boundary crossflow (initialize crossflow) in
  let t := set_rhov (idx crossflow 0 0) (lit 5) s in
  nxt (interior_update crossflow s) (idx crossflow 1 1)
  = nxt (interior_update crossflow t) (idx crossflow 1 1).
Proof.
  apply (X11_update_ignores_corners crossflow
           (apply_boundary crossflow (initialize crossflow))
           (set_rhov (idx crossflow 0 0) (lit 5)
              (apply_boundary crossflow (initialize crossflow))) 1 1).
  - vm_compute. reflexivity.
  - vm_compute. reflexivity.
  - vm_compute. reflexivity.
  - intros i j [Hi Hj] Hc. simpl in Hi, Hj, Hc.
    do 4 (destruct i as [|i]; [do 4 (destruct j as [|j];
      [first [vm_compute; reflexivity | exfalso; lia]|]); exfalso; lia|]).
    exfalso; lia.
  - unfold interior. simpl. lia.
Defined.

(** ** The uniform free stream *)

Section FreeStream.
Context {T : Type} `{Arith T}.
Variable c : Config T.

Lemma lax_friedrichs_lf_of (s : State T) i j :
  lax_friedrichs c s i j
  = lf_of c (cur s (idx c (i + 1) j)) (cur s (idx c (i - 1) j))
            (cur s (idx c i (j + 1))) (cur s (idx c i (j - 1))).
Proof. reflexivity. Qed.

Lemma initialize_streaming : no_obstacle c -> streaming c (initialize c).
Proof.
  intros Hno. split; [apply initialize_spec|]. split.
  - intros i j Hv. rewrite initialize_solid by done. by apply Hno.
  - intros i j Hin%interior_valid. rewrite initialize_cur by done.
    by rewrite Hno.
Qed.

Lemma boundary_streaming (s : State T) i j :
  streaming c s -> (1 <= Nx c)%nat -> (1 <= Ny c)%nat -> valid c i j ->
  cur (apply_boundary c s) (idx c i j)
  = if decide (j = 0 \/ j = Ny c + 1)%nat
    then mirror (free_stream c) else free_stream c.
Proof.
  intros (Hs & _ & Hfs) HNx HNy [Hi Hj].
  rewrite apply_boundary_spec by done.
  unfold boundary_value, inflow_outflow.
  repeat case_decide; try done; try lia;
    by rewrite Hfs by (unfold interior; lia).
Qed.

(** One step from a streaming state: an interior cell takes the
    Lax-Friedrichs value of free-stream neighbours, mirrored to the north or
    south where that neighbour is a ghost cell. *)
Lemma time_step_streaming (s : State T) n i j :
  streaming c s -> interior c i j ->
  exists N S, stream_or_mirror c N /\ stream_or_mirror c S
    /\ cur (time_step c n s) (idx c i j)
       = lf_of c (free_stream c) (free_stream c) N S.
Proof.
  intros Hst [Hi Hj]. pose proof Hst as (Hs & Hmask & _).
  assert (1 <= Nx c)%nat as HNx by lia. assert (1 <= Ny c)%nat as HNy by lia.
  exists (cur (apply_boundary c s) (idx c i (j + 1))),
         (cur (apply_boundary c s) (idx c i (j - 1))).
  split; [|split].
  - rewrite boundary_streaming by (done || (unfold valid; lia)).
    unfold stream_or_mirror. case_decide; auto.
  - rewrite boundary_streaming by (done || (unfold valid; lia)).
    unfold stream_or_mirror. case_decide; auto.
  - rewrite time_step_interior by done. unfold update_value.
    rewrite apply_boundary_solid, Hmask by (unfold valid; lia).
    rewrite lax_friedrichs_lf_of.
    rewrite (boundary_streaming s (i + 1) j) by (done || (unfold valid; lia)).
    rewrite (boundary_streaming s (i - 1) j) by (done || (unfold valid; lia)).
    by rewrite !decide_False by lia.
Qed.

Lemma time_step_keeps_streaming (s : State T) n :
  fixes_free_stream c -> streaming c s -> streaming c (time_step c n s).
Proof.
  intros Hfix Hst. pose proof Hst as (Hs & Hmask & _).
  split; [by apply time_step_sized|]. split.
  - intros i j Hv. rewrite time_step_solid. by apply Hmask.
  - intros i j Hin.
    destruct (time_step_streaming s n i j Hst Hin) as (N & S & HN & HS & ->).
    by apply Hfix.
Qed.

Lemma run_keeps_streaming (s : State T) n :
  fixes_free_stream c -> streaming c s -> streaming c (run c n s).
Proof.
  intros Hfix Hst. induction n as [|n IH]; [done|].
  replace (S n) with (n + 1)%nat by lia. rewrite run_S.
  by apply time_step_keeps_streaming.
Qed.

(** The ghost cells at the end of a step from a streaming state. *)
Lemma time_step_streaming_ghost (s : State T) n i j :
  streaming c s -> (1 <= Nx c)%nat -> (1 <= Ny c)%nat ->
  valid c i j -> ~ interior c i j ->
  cur (time_step c n s) (idx c i j)
  = if decide (j = 0 \/ j = Ny c + 1)%nat
    then mirror (free_stream c) else free_stream c.
Proof.
  intros Hst HNx HNy Hv Hout. pose proof Hst as (Hs & _ & _).
  rewrite time_step_ghost by done. by apply boundary_streaming.
Qed.
End FreeStream.


Lemma scenario_no_obstacle : no_obstacle (scenario (T := float)).
Proof.
  intros i j [Hi Hj]. simpl in Hi, Hj.
  do 6 (destruct i as [|i]; [do 6 (destruct j as [|j];
    [vm_compute; reflexivity|]); exfalso; lia|]).
  exfalso; lia.
Qed.

Lemma scenario_fixes_free_stream : fixes_free_stream (scenario (T := float)).
Proof. intros n s [-> | ->] [-> | ->]; vm_compute; reflexivity. Qed.




(** The scenario in binary64: after step 0 every interior cell has density
    exactly 1 and x-momentum exactly 1, and the diagnostic prints 8. *)
Example scenario_fixed_point :
  let s := time_step scenario 0 (initialize (T := float) scenario) in
  Forall (fun p => rho s !!! idx scenario p.1 p.2 = rho0 scenario
                   /\ rhou s !!! idx scenario p.1 p.2
                      = (rho0 scenario * u0 scenario)%num)
         (interior_cells scenario)
  /\ out s = [(0%nat, 8%float)].
Proof. vm_compute. split; [repeat constructor | reflexivity]. Qed.

(** ** The free stream of the source in binary64 *)

Lemma float_finite_shape (x : float) :
  PrimFloat.is_finite x = true ->
  (exists s, FloatOps.Prim2SF x = S754_zero s) \/ (exists s m e, FloatOps.Prim2SF x = S754_finite s m e).
Proof.
  unfold PrimFloat.is_finite, PrimFloat.is_nan, PrimFloat.is_infinity.
  rewrite !FloatAxioms.eqb_spec, FloatAxioms.abs_spec.
  destruct (FloatOps.Prim2SF x) as [s|s| |s m e]; intros Hfin.
  - left. by exists s.
  - exfalso. destruct s; vm_compute in Hfin; discriminate Hfin.
  - exfalso. vm_compute in Hfin. discriminate Hfin.
  - right. by exists s, m, e.
Qed.

Lemma float_mul_zero (k z : float) :
  PrimFloat.is_finite k = true ->
  z = PrimFloat.zero \/ z = PrimFloat.neg_zero ->
  PrimFloat.mul k z = PrimFloat.zero \/ PrimFloat.mul k z = PrimFloat.neg_zero.
Proof.
  intros Hk Hz.
  assert (exists b, FloatOps.Prim2SF (PrimFloat.mul k z) = S754_zero b) as [b Hb].
  { rewrite FloatAxioms.mul_spec.
    assert (exists b, FloatOps.Prim2SF z = S754_zero b) as [bz ->]
      by (destruct Hz as [-> | ->]; eexists; vm_compute; reflexivity).
    destruct (float_finite_shape k Hk) as [[s ->] | (s & m & e & ->)];
      eexists; reflexivity. }
  rewrite <- (FloatAxioms.SF2Prim_Prim2SF (PrimFloat.mul k z)), Hb.
  destruct b; [right | left]; reflexivity.
Qed.

(** In binary64 the free stream of the scenario (rho0 = u0 = p0 = 1,
    v0 = 0) is returned by a cell with free-stream neighbours on every grid
    for which the two coefficients dt/(2dx) and dt/(2dy) are finite. *)
Lemma unit_stream_fixes (c : Config float) :
  rho0 c = PrimFloat.one -> u0 c = PrimFloat.one ->
  v0 c = PrimFloat.zero -> p0 c = PrimFloat.one ->
  PrimFloat.is_finite (dt c / (lit 2 * dx c))%num = true ->
  PrimFloat.is_finite (dt c / (lit 2 * dy c))%num = true ->
  fixes_free_stream c.
Proof.
  intros Hr Hu Hv Hp HK1 HK2 n s Hn Hs.
  unfold stream_or_mirror, mirror, free_stream, E0 in *.
  rewrite Hr, Hu, Hv, Hp in *. cbn [c_rho c_rhou c_rhov c_E] in *.
  unfold lf_of. cbv zeta.
  revert HK1 HK2.
  generalize (dt c / (lit 2 * dx c))%num (dt c / (lit 2 * dy c))%num.
  intros K1 K2 HK1 HK2.
  destruct Hn as [-> | ->]; destruct Hs as [-> | ->];
    cbn [c_rho c_rhou c_rhov c_E]; f_equal; vm_compute;
    repeat match goal with
    | |- context [PrimFloat.mul K1 ?z] =>
        destruct (float_mul_zero K1 z HK1 ltac:(auto)) as [-> | ->]
    | |- context [PrimFloat.mul K2 ?z] =>
        destruct (float_mul_zero K2 z HK2 ltac:(auto)) as [-> | ->]
    end; vm_compute; reflexivity.
Qed.

(** X20. In binary64, with the free-stream constants of the source
    (rho0 = u0 = p0 = 1, v0 = 0), on a grid where no cell passes the obstacle
    test and the coefficients dt/(2dx) and dt/(2dy) are finite, a step from
    the initial state leaves the free-stream state in every interior
    cell. *)
Theorem X20_unit_stream_binary64 (c : Config float) (n i j : nat) :
  no_obstacle c ->
  rho0 c = PrimFloat.one -> u0 c = PrimFloat.one ->
  v0 c = PrimFloat.zero -> p0 c = PrimFloat.one ->
  PrimFloat.is_finite (dt c / (lit 2 * dx c))%num = true ->
  PrimFloat.is_finite (dt c / (lit 2 * dy c))%num = true ->
  interior c i j ->
  cur (time_step c n (initialize c)) (idx c i j) = free_stream c.
Proof.
  intros Hno Hr Hu Hv Hp HK1 HK2 Hin.
  destruct (time_step_streaming c (initialize c) n i j
              (initialize_streaming c Hno) Hin) as (N & S & HN & HS & ->).
  by apply unit_stream_fixes.
Qed.

Lemma X20_witness :
  cur (time_step scenario 0 (initialize (T := float) scenario))
      (idx (scenario (T := float)) 1 1)
  = free_stream (scenario (T := float)).
Proof.
  apply (X20_unit_stream_binary64 scenario 0 1 1).
  - exact scenario_no_obstacle.
  - vm_compute. reflexivity.
  - vm_compute. reflexivity.
  - vm_compute. reflexivity.
  - vm_compute. reflexivity.
  - vm_compute. reflexivity.
  - vm_compute. reflexivity.
  - unfold interior. simpl. lia.
Defined.

(** The free stream of the source is of this kind, on the grid of the
    source. *)
Example source_fixes_free_stream : fixes_free_stream source_config.
Proof. apply unit_stream_fixes; vm_compute; reflexivity. Qed.

(** The condition on the arithmetic is not void in binary64: for a gas at
    rest without pressure the wave speed is 0, the time step is infinite and
    the density of an interior cell after one step is not a number. *)
Example becalmed_not_fixed :
  PrimFloat.is_infinity (dt becalmed) = true
  /\ PrimFloat.is_nan (rho (time_step becalmed 0 (initialize becalmed))
                         !!! idx becalmed 1 1) = true.
Proof. vm_compute. split; reflexivity. Qed.

(** ** Further properties of the flux functions and of whole runs *)

(** X13. In exact arithmetic [fluxY] is [fluxX] with the two momenta
    exchanged, in the arguments and in the result. *)
Theorem X13_fluxY_transposes_fluxX (rho rhou rhov E : R) :
  fluxY rho rhou rhov E
  = mkFlux (frho (fluxX rho rhov rhou E)) (frhov (fluxX rho rhov rhou E))
           (frhou (fluxX rho rhov rhou E)) (fE (fluxX rho rhov rhou E)).
Proof.
  unfold fluxY, fluxX, pressure. cbn [frho frhou frhov fE].
  cbn [add sub mul div real_arith]. f_equal; unfold Rdiv; ring.
Qed.

(** X14. A solid interior cell contributes the same amount to the
    diagnostic at every step of a run started from the initialization: the
    kinetic energy 0.5*rho0*((0/rho0)^2 + (0/rho0)^2) of the at-rest state it
    was seeded with.  For every arithmetic, binary64 included. *)
Theorem X14_solid_cell_kinetic_constant
    {T : Type} `{Arith T} (c : Config T) (n i j : nat) :
  interior c i j -> solid (initialize c) !!! idx c i j = true ->
  cell_kinetic c (run c n (initialize c)) (i, j)
  = cell_kinetic c (initialize c) (i, j)
  /\ cell_kinetic c (initialize c) (i, j)
     = (lit 0.5 * rho0 c
        * (lit 0.0 / rho0 c * (lit 0.0 / rho0 c)
           + lit 0.0 / rho0 c * (lit 0.0 / rho0 c)))%num.
Proof.
  intros Hin Hsolid.
  destruct (initialize_spec c) as [Hs _].
  pose proof (solid_cell_run c (initialize c) n i j Hs Hin Hsolid) as Hrun.
  pose proof (initialize_cur c i j (interior_valid c i j Hin)) as Hinit.
  rewrite <- initialize_solid, Hsolid in Hinit by (by apply interior_valid).
  split.
  - unfold cur in Hrun. injection Hrun as Hr Hu Hv _.
    unfold cell_kinetic. cbn [fst snd]. by rewrite Hr, Hu, Hv.
  - unfold cur, at_rest in Hinit. injection Hinit as Hr Hu Hv _.
    unfold cell_kinetic. cbn [fst snd]. by rewrite Hr, Hu, Hv.
Qed.

Lemma X14_witness :
  cell_kinetic cylinder (run cylinder 3 (initialize cylinder)) (2%nat, 2%nat)
  = cell_kinetic cylinder (initialize cylinder) (2%nat, 2%nat)
  /\ cell_kinetic cylinder (initialize cylinder) (2%nat, 2%nat)
     = (lit 0.5 * rho0 cylinder
        * (lit 0.0 / rho0 cylinder * (lit 0.0 / rho0 cylinder)
           + lit 0.0 / rho0 cylinder * (lit 0.0 / rho0 cylinder)))%num.
Proof.
  apply (X14_solid_cell_kinetic_constant cylinder 3 2 2).
  - unfold interior. simpl. lia.
  - vm_compute. reflexivity.
Defined.

(** In binary64, with the free-stream density of the source, the
    contribution of a solid cell is the positive zero. *)
Example solid_cell_kinetic_source :
  (lit 0.5 * rho0 source_config
   * (lit 0.0 / rho0 source_config * (lit 0.0 / rho0 source_config)
      + lit 0.0 / rho0 source_config * (lit 0.0 / rho0 source_config)))%num
  = PrimFloat.zero.
Proof. vm_compute. reflexivity. Qed.

Lemma count_multiples_of_50 (n : nat) :
  length (filter (fun k => (k mod 50 = 0)%nat) (seq 0 n)) = ((n + 49) / 50)%nat.
Proof.
  induction n as [|n IH]; [done|].
  replace (S n) with (n + 1)%nat by lia.
  rewrite seq_app, filter_app, length_app, IH. cbn [seq Nat.add].
  rewrite filter_cons, filter_nil.
  pose proof (Nat.div_mod_eq n 50) as Hn.
  pose proof (Nat.mod_upper_bound n 50) as Hn'.
  pose proof (Nat.div_mod_eq (n + 49) 50) as Ha.
  pose proof (Nat.mod_upper_bound (n + 49) 50) as Ha'.
  pose proof (Nat.div_mod_eq (n + 1 + 49) 50) as Hb.
  pose proof (Nat.mod_upper_bound (n + 1 + 49) 50) as Hb'.
  case_decide; cbn [length]; lia.
Qed.

(** X15. A run of n steps prints one diagnostic line for every 50 steps
    begun: the output grows by (n + 49) / 50 lines, and the k-th of them
    carries the step index 50 k. *)
Theorem X15_diagnostic_line_count
    {T : Type} `{Arith T} (c : Config T) (s : State T) (n : nat) :
  length (out (run c n s)) = (length (out s) + (n + 49) / 50)%nat
  /\ (forall k, (k < (n + 49) / 50)%nat ->
        (out (run c n s)).*1 !! (length (out s) + k)%nat = Some (50 * k)%nat).
Proof.
  pose proof (run_out_steps c n s) as Hsteps.
  assert (forall m, filter (fun k => (k mod 50 = 0)%nat) (seq 0 m)
                    = (fun k => 50 * k)%nat <$> seq 0 ((m + 49) / 50)) as Hfilter.
  { clear. intros m. induction m as [|m IH]; [done|].
    replace (S m) with (m + 1)%nat by lia.
    rewrite seq_app, filter_app, IH. cbn [seq Nat.add].
    rewrite filter_cons, filter_nil.
    pose proof (Nat.div_mod_eq m 50) as Hn.
    pose proof (Nat.mod_upper_bound m 50) as Hn'.
    pose proof (Nat.div_mod_eq (m + 49) 50) as Ha.
    pose proof (Nat.mod_upper_bound (m + 49) 50) as Ha'.
    pose proof (Nat.div_mod_eq (m + 1 + 49) 50) as Hb.
    pose proof (Nat.mod_upper_bound (m + 1 + 49) 50) as Hb'.
    case_decide.
    - replace ((m + 1 + 49) / 50)%nat with ((m + 49) / 50 + 1)%nat by lia.
      rewrite seq_app, fmap_app. cbn [seq Nat.add fmap list_fmap].
      do 2 f_equal. lia.
    - replace ((m + 1 + 49) / 50)%nat with ((m + 49) / 50)%nat by lia.
      by rewrite app_nil_r. }
  split.
  - rewrite <- (length_fmap fst (out (run c n s))), Hsteps.
    by rewrite length_app, length_fmap, count_multiples_of_50.
  - intros k Hk. rewrite Hsteps, Hfilter.
    rewrite lookup_app_r by (rewrite length_fmap; lia).
    rewrite length_fmap. replace (length (out s) + k - length (out s))%nat with k by lia.
    rewrite list_lookup_fmap, lookup_seq_lt by done. done.
Qed.

(** X17. The uniform free stream is a steady state of the whole run when no
    cell passes the obstacle test and the arithmetic of the configuration
    returns the free stream for a cell with free-stream neighbours
    ([fixes_free_stream]): after any number of steps every interior cell
    holds the free-stream state, and from the first step on every ghost cell
    of the left and right columns holds it too, while the ghost cells of the
    bottom and top rows hold its mirror image.  For every arithmetic,
    binary64 included. *)
Theorem X17_free_stream_steady
    {T : Type} `{Arith T} (c : Config T) (n i j : nat) :
  no_obstacle c -> fixes_free_stream c ->
  (1 <= Nx c)%nat -> (1 <= Ny c)%nat -> valid c i j ->
  (interior c i j -> cur (run c n (initialize c)) (idx c i j) = free_stream c)
  /\ (~ interior c i j ->
        cur (run c (n + 1) (initialize c)) (idx c i j)
        = if decide (j = 0 \/ j = Ny c + 1)%nat
          then mirror (free_stream c) else free_stream c).
Proof.
  intros Hno Hfix HNx HNy Hv.
  pose proof (run_keeps_streaming c (initialize c) n Hfix
                (initialize_streaming c Hno)) as Hst.
  split.
  - intros Hin. by apply Hst.
  - intros Hout. rewrite run_S. by apply time_step_streaming_ghost.
Qed.

Lemma X17_witness :
  (interior (scenario (T := float)) 0 3 ->
     cur (run scenario 5 (initialize (T := float) scenario)) (idx (scenario (T := float)) 0 3)
     = free_stream (scenario (T := float)))
  /\ (~ interior (scenario (T := float)) 0 3 ->
        cur (run scenario (5 + 1) (initialize (T := float) scenario))
            (idx (scenario (T := float)) 0 3)
        = if decide (3 = 0 \/ 3 = Ny (scenario (T := float)) + 1)%nat
          then mirror (free_stream (scenario (T := float)))
          else free_stream (scenario (T := float))).
Proof.
  apply (X17_free_stream_steady scenario 5 0 3).
  - exact scenario_no_obstacle.
  - exact scenario_fixes_free_stream.
  - simpl. lia.
  - simpl. lia.
  - unfold valid. simpl. lia.
Defined.

Section Output.
Context {T : Type} `{Arith T}.
Variable c : Config T.

Lemma kinetic_sum_ext (s t : State T) :
  rho s = rho t -> rhou s = rhou t -> rhov s = rhov t ->
  kinetic_sum c s = kinetic_sum c t.
Proof.
  intros Hr Hu Hv. unfold kinetic_sum. apply foldl_ext_eq.
  intros a p. unfold cell_kinetic. by rewrite Hr, Hu, Hv.
Qed.

Lemma kinetic_sum_diagnostics n (s : State T) :
  kinetic_sum c (diagnostics c n s) = kinetic_sum c s.
Proof.
  apply kinetic_sum_ext; unfold diagnostics; by destruct (n mod 50 =? 0)%nat.
Qed.

Lemma run_out n (s : State T) :
  out (run c n s)
  = out s ++ ((fun k => (k, kinetic_sum c (run c (k + 1) s)))
                <$> filter (fun k => (k mod 50 = 0)%nat) (seq 0 n)).
Proof.
  induction n as [|n IH].
  - simpl. by rewrite app_nil_r.
  - replace (S n) with (n + 1)%nat by lia.
    rewrite run_S at 1. rewrite time_step_out, IH, seq_app, filter_app, fmap_app.
    rewrite <- app_assoc. do 2 f_equal. cbn [seq Nat.add].
    rewrite filter_cons, filter_nil.
    destruct (Nat.eqb_spec (n mod 50) 0) as [Heq|Hne].
    + rewrite decide_True by done. cbn [fmap list_fmap]. do 2 f_equal.
      rewrite run_S. unfold time_step. by rewrite kinetic_sum_diagnostics.
    + by rewrite decide_False.
Qed.
End Output.

(** X18. Everything a run prints: for each step index k below n that is
    divisible by 50, in increasing order, one line with k and the kinetic sum
    of the state at the end of step k, that is after k + 1 steps. *)
Theorem X18_output_values
    {T : Type} `{Arith T} (c : Config T) (s : State T) (n : nat) :
  out (run c n s)
  = out s ++ ((fun k => (k, kinetic_sum c (run c (k + 1) s)))
                <$> filter (fun k => (k mod 50 = 0)%nat) (seq 0 n)).
Proof. apply run_out. Qed.

Lemma foldl_ext_in {A B : Type} (f g : A -> B -> A) (l : list B) (a : A) :
  (forall a x, x ∈ l -> f a x = g a x) -> foldl f a l = foldl g a l.
Proof.
  revert a. induction l as [|x l IH]; intros a Hfg; [done|].
  cbn [foldl]. rewrite Hfg by apply list_elem_of_here.
  apply IH. intros a' y Hy. apply Hfg. by apply list_elem_of_further.
Qed.

(** The diagnostic reads interior cells only. *)
Lemma kinetic_sum_interior {T : Type} `{Arith T} (c : Config T) (s t : State T) :
  (forall i j, interior c i j -> cur s (idx c i j) = cur t (idx c i j)) ->
  kinetic_sum c s = kinetic_sum c t.
Proof.
  intros Hint. unfold kinetic_sum. apply foldl_ext_in.
  intros a [i j] Hp%interior_cells_spec. specialize (Hint i j Hp).
  unfold cur in Hint. injection Hint as Hr Hu Hv _.
  unfold cell_kinetic. cbn [fst snd]. by rewrite Hr, Hu, Hv.
Qed.

(** X19. Everything a run over the steady free stream prints (no cell
    passes the obstacle test, the arithmetic returns the free stream for a
    cell with free-stream neighbours): one line for each step index below n
    divisible by 50, each with the same value, the kinetic sum of the initial
    state.  For every arithmetic, binary64 included. *)
Theorem X19_free_stream_output
    {T : Type} `{Arith T} (c : Config T) (n : nat) :
  no_obstacle c -> fixes_free_stream c ->
  kinetic_sum c (run c n (initialize c)) = kinetic_sum c (initialize c)
  /\ out (run c n (initialize c))
     = (fun k => (k, kinetic_sum c (initialize c)))
         <$> filter (fun k => (k mod 50 = 0)%nat) (seq 0 n).
Proof.
  intros Hno Hfix.
  pose proof (initialize_streaming c Hno) as Hst0.
  assert (forall m, kinetic_sum c (run c m (initialize c))
                    = kinetic_sum c (initialize c)) as Hsum.
  { intros m. apply kinetic_sum_interior. intros i j Hin.
    pose proof (run_keeps_streaming c (initialize c) m Hfix Hst0) as (_ & _ & Hm).
    destruct Hst0 as (_ & _ & H0). by rewrite Hm, H0. }
  split; [apply Hsum|].
  rewrite run_out, initialize_out. cbn [app].
  apply list_fmap_ext. intros _ k _. by rewrite Hsum.
Qed.

Lemma X19_witness :
  kinetic_sum scenario (run scenario 60 (initialize (T := float) scenario))
  = kinetic_sum scenario (initialize (T := float) scenario)
  /\ out (run scenario 60 (initialize (T := float) scenario))
     = (fun k => (k, kinetic_sum scenario (initialize (T := float) scenario)))
         <$> filter (fun k => (k mod 50 = 0)%nat) (seq 0 60).
Proof.
  apply (X19_free_stream_output scenario 60).
  - exact scenario_no_obstacle.
  - exact scenario_fixes_free_stream.
Defined.
